(** * text-to-matrix.py: a TTF font rendered to a table of pixel rows

    A shallow embedding of [src/text-to-matrix.py] and the properties of its
    font-size search, its height trimming and its row encoder.

    Python values are embedded as follows.
    - [int] is [Z]; list and array positions are [nat] once they are known to
      be in range, and [Z] where the source computes them.
    - [str] is [list ascii] ([str] below), so that slices are [take]/[drop].
    - a [list] is a [list]; [l[i]] and [l[i] = x] raise [IndexError] out of
      range, which [getitem] and [setitem] spell out.
    - a two-dimensional numpy array is an [ndarray]: its shape and its rows.
    - an exception or a loop that runs out of fuel is an [outcome].
    - PIL, the font engine, is the class [FontEngine]: the script only calls
      it, so it is a parameter of every function that does. *)

From Stdlib Require Import ZArith List Ascii String Lia Bool.
From stdpp Require Import base tactics option list pretty.

Open Scope Z_scope.

(** ** Exceptions, divergence and the [outcome] monad *)

Inductive exn : Type :=
  | IndexError
  | ValueError
  | UnboundLocalError.

(** [OutOfFuel] is not a Python value: a [while] loop is run for at most
    [fuel] iterations, and a run that needs more ends in [OutOfFuel]. A loop
    that gives [OutOfFuel] for every [fuel] does not terminate. *)
Inductive outcome (A : Type) : Type :=
  | Return (a : A)
  | Raise (e : exn)
  | OutOfFuel.

Arguments Return {A} a.
Arguments Raise {A} e.
Arguments OutOfFuel {A}.

#[global] Instance outcome_ret : MRet outcome := @Return.

#[global] Instance outcome_bind : MBind outcome := λ A B f m,
  match m with
  | Return a => f a
  | Raise e => Raise e
  | OutOfFuel => OutOfFuel
  end.

#[global] Instance outcome_fmap : FMap outcome := λ A B f m,
  match m with
  | Return a => Return (f a)
  | Raise e => Raise e
  | OutOfFuel => OutOfFuel
  end.

(** A comprehension [[f x for x in l]] whose [f] may raise. *)
Fixpoint mapM_outcome {A B : Type} (f : A → outcome B) (l : list A) : outcome (list B) :=
  match l with
  | [] => mret []
  | x :: l' => y ← f x; ys ← mapM_outcome f l'; mret (y :: ys)
  end.

(** A [for x in l] loop over a state [S] whose body may raise. *)
Fixpoint foldM_outcome {A S : Type} (body : S → A → outcome S) (l : list A) (s : S) : outcome S :=
  match l with
  | [] => mret s
  | x :: l' => s' ← body s x; foldM_outcome body l' s'
  end.

(** [while cond: body], for at most [fuel] iterations. *)
Fixpoint while {S : Type} (fuel : nat) (cond : S → bool) (body : S → S) (s : S) : outcome S :=
  if cond s then
    match fuel with
    | O => OutOfFuel
    | Datatypes.S fuel' => while fuel' cond body (body s)
    end
  else Return s.

(** ** Python lists *)

(** [l[i]]: a negative [i] counts from the end. *)
Definition getitem {A : Type} (l : list A) (i : Z) : outcome A :=
  let n := Z.of_nat (length l) in
  let j := if i <? 0 then n + i else i in
  if (0 <=? j) && (j <? n) then
    match l !! Z.to_nat j with
    | Some x => Return x
    | None => Raise IndexError
    end
  else Raise IndexError.

(** [l[i] = x] for the non-negative [i] of an [enumerate]. *)
Definition setitem {A : Type} (l : list A) (i : nat) (x : A) : outcome (list A) :=
  if (i <? length l)%nat then Return (<[i:=x]> l) else Raise IndexError.

(** [l.count(x)] *)
Definition count {A : Type} `{EqDecision A} (l : list A) (x : A) : Z :=
  Z.of_nat (length (filter (λ y, y = x) l)).

(** ** Python strings *)

Definition str : Type := list ascii.

Definition lit (s : string) : str := list_ascii_of_string s.

(** [sep.join(l)] *)
Fixpoint join (sep : str) (l : list str) : str :=
  match l with
  | [] => []
  | [s] => s
  | s :: l' => s ++ sep ++ join sep l'
  end.

(** [str(n)] of an [int] *)
Definition str_of_int (n : Z) : str := lit (pretty n).

Definition hex_digit (d : Z) : ascii :=
  match d with
  | 0 => "0" | 1 => "1" | 2 => "2" | 3 => "3"
  | 4 => "4" | 5 => "5" | 6 => "6" | 7 => "7"
  | 8 => "8" | 9 => "9" | 10 => "a" | 11 => "b"
  | 12 => "c" | 13 => "d" | 14 => "e" | _ => "f"
  end%char.

(** The hexadecimal digits of [n >= 0] in front of [acc], most significant
    first and with no leading zero; [fuel] bounds the number of digits. *)
Fixpoint hex_digits_go (fuel : nat) (n : Z) (acc : str) : str :=
  match fuel with
  | O => acc
  | Datatypes.S fuel' =>
      let acc' := hex_digit (n mod 16) :: acc in
      if n / 16 =? 0 then acc' else hex_digits_go fuel' (n / 16) acc'
  end.

(** [format(n, 'x')] for [n >= 0]: a number of [b] bits has at most [b]
    hexadecimal digits. *)
Definition hex_digits (n : Z) : str :=
  hex_digits_go (Datatypes.S (Z.to_nat (Z.log2 n))) n [].

(** [format(num, f'0{width}x')]: lower-case hexadecimal, sign first, padded
    with zeros after the sign to [width] characters in all. A negative
    [width] gives the format specification [0-1x], which Python refuses. *)
Definition format_0x (num width : Z) : outcome str :=
  if width <? 0 then Raise ValueError
  else
    let sign := if num <? 0 then lit "-" else [] in
    let digits := hex_digits (Z.abs num) in
    let pad := (Z.to_nat width - length sign - length digits)%nat in
    Return (sign ++ replicate pad "0"%char ++ digits).

Fixpoint int_base2_go (s : str) (acc : Z) : outcome Z :=
  match s with
  | [] => Return acc
  | c :: s' =>
      if Ascii.eqb c "0" then int_base2_go s' (2 * acc)
      else if Ascii.eqb c "1" then int_base2_go s' (2 * acc + 1)
      else Raise ValueError
  end.

(** [int(s, 2)] on strings of binary digits; the empty string is a
    [ValueError]. Python also reads a sign, a [0b] prefix, underscores and
    blanks around the digits: [to_bitfield] builds [s] from [str(0)] and
    [str(1)] only, and the model refuses every other character. *)
Definition int_base2 (s : str) : outcome Z :=
  match s with
  | [] => Raise ValueError
  | _ => int_base2_go s 0
  end.

(** [math.ceil(n / 4)]: the quotient is a float that is exact for every
    [|n| < 2^53], so the ceiling is the integer one. *)
Definition ceil_quarter (n : Z) : Z := - ((- n) / 4).

(** ** numpy arrays of two dimensions *)

Record ndarray (A : Type) : Type := mk_ndarray {
  nrows : nat;
  ncols : nat;
  cells : list (list A)
}.

Arguments mk_ndarray {A} nrows ncols cells.
Arguments nrows {A} _.
Arguments ncols {A} _.
Arguments cells {A} _.

(** The rows of an array agree with its shape. *)
Definition ndarray_wf {A : Type} (a : ndarray A) : Prop :=
  length (cells a) = nrows a ∧ Forall (λ row, length row = ncols a) (cells a).

(** The array of shape [(h, w)] whose cell [(i, j)] is [f i j]. *)
Definition tabulate {A : Type} (h w : nat) (f : nat → nat → A) : ndarray A :=
  mk_ndarray h w (map (λ i, map (f i) (seq 0 w)) (seq 0 h)).

(** [np.where(a, x, y)] over an integer array: [x] where the cell is not 0. *)
Definition np_where {B : Type} (a : ndarray Z) (x y : B) : ndarray B :=
  mk_ndarray (nrows a) (ncols a)
    (map (map (λ c : Z, if c =? 0 then y else x)) (cells a)).

(** [np.zeros((h, w))]; a negative dimension is a [ValueError]. *)
Definition np_zeros (h w : Z) : outcome (ndarray Z) :=
  if (h <? 0) || (w <? 0) then Raise ValueError
  else Return (tabulate (Z.to_nat h) (Z.to_nat w) (λ _ _, 0)).

(** A dimension [d] of the source fits the slice [:d] of a dimension [cap]
    of the target when the slice has [d] entries, or when [d = 1]
    (broadcasting). *)
Definition broadcast_ok (d cap : nat) : bool := (d <=? cap)%nat || (d =? 1)%nat.

(** [new[:arr.shape[0], :arr.shape[1]] = arr]: the cells of [arr] over the
    top left corner of [new]; a shape that does not broadcast is a
    [ValueError]. A source dimension of 1 that does not fit is broadcast
    over an empty slice, and nothing is copied. *)
Definition assign_corner (new arr : ndarray Z) : outcome (ndarray Z) :=
  if broadcast_ok (nrows arr) (nrows new) && broadcast_ok (ncols arr) (ncols new) then
    Return (mk_ndarray (nrows new) (ncols new)
      (imap (λ i row,
         imap (λ j c,
           if (i <? nrows arr)%nat && (j <? ncols arr)%nat then
             default c (cells arr !! i ≫= (.!! j))
           else c) row) (cells new)))
  else Raise ValueError.

(** [arr[mask]] with a list of booleans: the rows whose flag is set; the
    mask must have one flag per row. *)
Definition mask_rows {A : Type} (arr : ndarray A) (mask : list bool) : outcome (ndarray A) :=
  if (length mask =? nrows arr)%nat then
    let kept := omap (λ p : bool * list A, if p.1 then Some p.2 else None) (zip mask (cells arr)) in
    Return (mk_ndarray (length kept) (ncols arr) kept)
  else Raise IndexError.

(** [(arr != 0).any(axis=1)] *)
Definition any_axis1 (arr : ndarray Z) : list bool :=
  map (existsb (λ c, negb (c =? 0))) (cells arr).

(** ** The font engine (PIL) *)

(** What the script asks of PIL. [truetype font size] is
    [ImageFont.truetype(font=font, size=size)], [getbbox font_inst text] is
    [font_inst.getbbox(text)], the ink bounding box [(l, t, r, b)], and
    [draw_text font_inst text width height i j] is the grey level of the
    pixel in row [i] and column [j] of a white [width] x [height] image of
    mode [L] after [draw.text((0, 0), text, font=font_inst)]. Text handed to
    the engine is a list of code points. Loading a font and drawing are
    taken to succeed: a missing font file is outside the model. *)
Class FontEngine : Type := {
  codepoint : Type;
  ImageFont : Type;
  truetype : str → Z → ImageFont;
  getbbox : ImageFont → list codepoint → Z * Z * Z * Z;
  draw_text : ImageFont → list codepoint → nat → nat → nat → nat → Z
}.

(** ** The script *)

(** The module-level output settings. *)
Definition OUTPUT_FILL : str := lit "1".
Definition OUTPUT_EMPTY : str := lit "0".
Definition OUTPUT_SEPARATOR : str := lit "// ".
Definition OUTPUT_HEXA : bool := true.

Definition newline : ascii := ascii_of_nat 10.
Definition tab : ascii := ascii_of_nat 9.

Definition generate_header : str :=
  [newline] ++ lit "// This is a file generated by text-to-matrix.py" ++ [newline]
  ++ lit "const uint8_t FontPy_Table [] = {" ++ [newline].

Definition generate_footer (max_width actual_height : Z) : str :=
  lit "};" ++ [newline]
  ++ lit "  /* Width = " ++ str_of_int max_width ++ lit " */" ++ [newline]
  ++ lit "  /* Height = " ++ str_of_int actual_height ++ lit " */" ++ [newline].

(** The list of [0x..] literals of [hex_with_padding], before the join:
    [['0x' + hex_str[i:i + 2] for i in range(0, len(hex_str), 2)]]. *)
Definition hex_pairs (hex_str : str) : list str :=
  map (λ k : nat, lit "0x" ++ take 2 (drop (2 * k) hex_str))
      (seq 0 (Nat.div2 (length hex_str + 1))).

Definition hex_with_padding (num width : Z) : outcome str :=
  hex_str ← format_0x num width;
  let pairs := hex_pairs hex_str in
  mret (join (lit ", ") pairs).

(** One element of the comprehension [hex_values] of [to_bitfield]:
    [hex_with_padding(int(''.join(map(str, row)), 2), width)]. *)
Definition row_hex (width : Z) (row : list Z) : outcome str :=
  num ← int_base2 (join [] (map str_of_int row));
  hex_with_padding num width.

(** The lines [to_bitfield] joins, one per row of [new_array]. *)
Definition to_bitfield_result (arr : ndarray Z) (max_height max_width : Z) : outcome (list str) :=
  zeros ← np_zeros max_height max_width;
  new_array ← assign_corner zeros arr;
  let width := ceil_quarter max_width in
  let binary_arr := np_where new_array 1 0 in
  hex_values ← mapM_outcome (row_hex width) (cells binary_arr);
  let comment_arr := np_where new_array OUTPUT_FILL OUTPUT_EMPTY in
  let comments := map (join []) (cells comment_arr) in
  mret (if OUTPUT_HEXA then
          zip_with (λ hexa com, hexa ++ lit "," ++ [tab] ++ lit " " ++ OUTPUT_SEPARATOR ++ com)
                   hex_values comments
        else map (λ com, OUTPUT_SEPARATOR ++ com) comments).

(** [to_bitfield]: the text its two [file.write] calls append to the file.
    Every exception it can raise comes before the first write. *)
Definition to_bitfield (arr : ndarray Z) (max_height max_width : Z) : outcome str :=
  result ← to_bitfield_result arr max_height max_width;
  mret (join [newline] result ++ [newline; newline]).

(** The state of the two [while] loops: the last measured dimension
    ([max_width], [max_height]), [size] and [last_size]. *)
Record scan : Type := mk_scan {
  dim : Z;
  size : Z;
  last_size : Z
}.

(** The body of the inner loop of [determine_final_height] (lines 176 and
    177) at [index]; Python's [or] reads its right operand only when the
    left one is false. *)
Definition mask_step (mask : list bool) (total_mask : list bool) (index : nat) : outcome (list bool) :=
  here ← getitem mask (Z.of_nat index);
  above ← (if here : bool then Return true
           else getitem mask (Z.max (Z.of_nat index - 1) 0));
  below ← (if above : bool then Return true
           else getitem mask (Z.min (Z.of_nat index + 1) (Z.of_nat (length mask) - 1)));
  if below : bool then setitem total_mask index true else Return total_mask.

Definition determine_final_height (masks : list (list bool)) : outcome (list bool * Z) :=
  last ← getitem masks (-1);
  let total_mask := replicate (length last) false in
  total_mask ← foldM_outcome
    (λ total_mask mask,
       foldM_outcome (mask_step mask) (seq 0 (length mask)) total_mask)
    masks total_mask;
  let actual_height := count total_mask true in
  mret (total_mask, actual_height).

(** The output file of a run: never opened, or opened for writing (which
    empties it) and holding what was written since. *)
Inductive destination : Type :=
  | Untouched
  | Opened (content : str).

Section Script.

Context {PIL : FontEngine}.

Definition get_letter_dimensions (text : list codepoint) (font : ImageFont) : Z * Z :=
  let '(l, t, r, b) := getbbox font text in
  let width := r - l in
  let height := b - t in
  (width, height).

(** [Image.new] refuses a negative size; the array of the image has one
    row per pixel row. *)
Definition char_to_pixels (text : list codepoint) (font : ImageFont) (width height : Z)
  : outcome (ndarray Z * list bool) :=
  if (width <? 0) || (height <? 0) then Raise ValueError
  else
    let arr := tabulate (Z.to_nat height) (Z.to_nat width)
                 (draw_text font text (Z.to_nat width) (Z.to_nat height)) in
    let arr := np_where arr 0 255 in
    let arr_mask := any_axis1 arr in
    Return (arr, arr_mask).

Definition determine_font_size_by_max_width (fuel : nat) (string : list codepoint)
    (font : str) (px_width : Z) : outcome Z :=
  st ← while fuel (λ st, dim st <? px_width)
          (λ st, let font_inst := truetype font (size st) in
                 let '(max_width, _) := get_letter_dimensions string font_inst in
                 {| dim := max_width; last_size := size st; size := size st + 1 |})
          {| dim := 0; size := 1; last_size := 1 |};
  if dim st >? px_width then mret (last_size st) else mret (size st).

Definition determine_font_size_by_max_height (fuel : nat) (string : list codepoint)
    (font : str) (px_height : Z) : outcome Z :=
  let px_height := px_height - 2 in
  st ← while fuel (λ st, dim st <? px_height)
          (λ st, let font_inst := truetype font (size st) in
                 let '(_, max_height) := get_letter_dimensions string font_inst in
                 {| dim := max_height; last_size := size st; size := size st + 1 |})
          {| dim := 0; size := 1; last_size := 1 |};
  if dim st >? px_height then mret (last_size st) else mret (size st).

Definition get_max_letter_dimensions (base_string : list codepoint) (font_inst : ImageFont)
  : Z * Z :=
  let '(max_width, max_height) :=
    fold_left (λ '(max_width, max_height) char,
                 let '(char_width, char_height) := get_letter_dimensions [char] font_inst in
                 (Z.max char_width max_width, Z.max char_height max_height))
              base_string (0, 0) in
  let max_height := max_height * 2 in
  (max_width, max_height).

(** Lines 188 to 198 of [font_to_pixels]: the [if]/[elif] chain that binds
    [font_size]. With a [font_size_option] that no branch names the
    variable stays unbound ([None]). *)
Definition font_to_pixels_font_size (fuel : nat) (font_path : str)
    (all_letters : list codepoint) (font_size_option : str)
    (letter_max_px_width str_max_px_width : Z) (max_width_string : list codepoint)
    (input_font_size : Z) : outcome (option Z) :=
  if decide (font_size_option = lit "font_size") then
    mret (Some input_font_size)
  else if decide (font_size_option = lit "letter_max_px_width") then
    font_size ← determine_font_size_by_max_height fuel all_letters font_path letter_max_px_width;
    mret (Some font_size)
  else if decide (font_size_option = lit "str_max_px_width") then
    font_size ← determine_font_size_by_max_width fuel max_width_string font_path str_max_px_width;
    mret (Some font_size)
  else if decide (font_size_option = lit "max_px_both") then
    size_by_height ← determine_font_size_by_max_height fuel all_letters font_path letter_max_px_width;
    size_by_width ← determine_font_size_by_max_width fuel max_width_string font_path str_max_px_width;
    mret (Some (Z.min size_by_height size_by_width))
  else mret None.

(** Lines 200 to 212 of [font_to_pixels]: everything between the choice of
    the size and the [print]. Reading the unbound [font_size] is an
    [UnboundLocalError]. The result is
    [(max_width, letters, total_mask, actual_height)]. *)
Definition font_to_pixels_raster (font_path : str) (all_letters : list codepoint)
    (font_size : option Z) : outcome (Z * list (ndarray Z) * list bool * Z) :=
  font_size ← (match font_size with
               | Some font_size => Return font_size
               | None => Raise UnboundLocalError
               end);
  let font_inst := truetype font_path font_size in
  let '(max_width, max_height) := get_max_letter_dimensions all_letters font_inst in
  rastered ← mapM_outcome (λ char, char_to_pixels [char] font_inst max_width max_height)
               all_letters;
  let letters := rastered.*1 in
  let masks := rastered.*2 in
  '(total_mask, actual_height) ← determine_final_height masks;
  mret (max_width, letters, total_mask, actual_height).

(** Lines 188 to 212 of [font_to_pixels] as one computation. *)
Definition font_to_pixels_prepared (fuel : nat) (font_path : str)
    (all_letters : list codepoint) (font_size_option : str)
    (letter_max_px_width str_max_px_width : Z) (max_width_string : list codepoint)
    (input_font_size : Z) : outcome (Z * list (ndarray Z) * list bool * Z) :=
  font_size ← font_to_pixels_font_size fuel font_path all_letters font_size_option
                letter_max_px_width str_max_px_width max_width_string input_font_size;
  font_to_pixels_raster font_path all_letters font_size.

(** The [for] loop inside the [with] block: the text of the file so far,
    and how the loop ended. *)
Fixpoint font_to_pixels_blocks (letters : list (ndarray Z)) (total_mask : list bool)
    (actual_height max_width : Z) (file : str) : str * outcome () :=
  match letters with
  | [] => (file, Return ())
  | char_arr :: letters' =>
      match char_arr ← mask_rows char_arr total_mask;
            to_bitfield char_arr actual_height max_width with
      | Return text =>
          font_to_pixels_blocks letters' total_mask actual_height max_width (file ++ text)
      | Raise e => (file, Raise e)
      | OutOfFuel => (file, OutOfFuel)
      end
  end.

(** What a run leaves behind: the lines printed, the output file, and
    whether the call returned. *)
Record run : Type := mk_run {
  stdout : list str;
  output_file : destination;
  result : outcome ()
}.

Definition font_to_pixels (fuel : nat) (font_path output_file_path : str)
    (all_letters : list codepoint) (font_size_option : str)
    (letter_max_px_width str_max_px_width : Z) (max_width_string : list codepoint)
    (input_font_size : Z) : run :=
  match font_to_pixels_prepared fuel font_path all_letters font_size_option
          letter_max_px_width str_max_px_width max_width_string input_font_size with
  | Return (max_width, letters, total_mask, actual_height) =>
      let printed := lit "Pixel size H x W: " ++ str_of_int actual_height
                     ++ lit " x " ++ str_of_int max_width in
      (* open(output_file_path, 'w') empties the file *)
      let file := generate_header in
      let '(file, ended) :=
        font_to_pixels_blocks letters total_mask actual_height max_width file in
      match ended with
      | Return _ =>
          mk_run [printed] (Opened (file ++ generate_footer max_width actual_height))
                 (Return ())
      | _ => mk_run [printed] (Opened file) ended
      end
  | Raise e => mk_run [] Untouched (Raise e)
  | OutOfFuel => mk_run [] Untouched OutOfFuel
  end.

End Script.

(** ** A small font engine to run the script on

    Every glyph of [block_font] is a black box 5 pixels wide and 10 pixels
    high per unit of size, so a text of [n] characters measures
    [5 * size * n] by [10 * size], and the empty text measures nothing. *)
Definition block_font : FontEngine := {|
  codepoint := ascii;
  ImageFont := Z;
  truetype := λ _ size, size;
  getbbox := λ size text,
    (0, 0, 5 * size * Z.of_nat (length text),
     match text with [] => 0 | _ => 10 * size end);
  draw_text := λ size text _ _ i j,
    if (Z.of_nat i <? 10 * size) && (Z.of_nat j <? 5 * size * Z.of_nat (length text))
    then 0 else 255
|}.

(** ** Definitions for the properties *)

(** *** The font-size search *)

Section SearchModel.

Context {PIL : FontEngine}.

(** The width and the height the engine measures for [string] at [size]. *)
Definition width_at (string : list codepoint) (font : str) (size : Z) : Z :=
  (get_letter_dimensions string (truetype font size)).1.

Definition height_at (string : list codepoint) (font : str) (size : Z) : Z :=
  (get_letter_dimensions string (truetype font size)).2.

(** The loop the two searches share, over any measure of the sizes. *)
Definition scan_step (measure : Z → Z) (st : scan) : scan :=
  {| dim := measure (size st); last_size := size st; size := size st + 1 |}.

Definition ascending_scan (fuel : nat) (measure : Z → Z) (limit : Z) : outcome Z :=
  st ← while fuel (λ st, dim st <? limit) (scan_step measure)
          {| dim := 0; size := 1; last_size := 1 |};
  if dim st >? limit then mret (last_size st) else mret (size st).

End SearchModel.

(** *** The shared row mask *)

(** Whether row [index] of [mask] or one of its two neighbours is set: the
    condition of line 176. *)
Definition near (mask : list bool) (index : nat) : bool :=
  default false (mask !! index)
  || default false (mask !! Z.to_nat (Z.max (Z.of_nat index - 1) 0))
  || default false (mask !! Z.to_nat (Z.min (Z.of_nat index + 1) (Z.of_nat (length mask) - 1))).

(** Line 177 at [index], without the exceptions. *)
Definition mark_row (mask : list bool) (total_mask : list bool) (index : nat) : list bool :=
  if near mask index then <[index:=true]> total_mask else total_mask.

(** The inner loop over one mask. *)
Definition mark_mask (total_mask mask : list bool) : list bool :=
  fold_left (mark_row mask) (seq 0 (length mask)) total_mask.

(** The outer loop over the masks, from a mask of [n] rows not set. *)
Definition shared_mask (n : nat) (masks : list (list bool)) : list bool :=
  fold_left mark_mask masks (replicate n false).

(** *** The canvas *)

(** [m] is the maximum of [l], and 0 when [l] is empty. *)
Definition is_max_of (m : Z) (l : list Z) : Prop :=
  (∀ x, x ∈ l → x ≤ m) ∧ (l = [] → m = 0) ∧ (l ≠ [] → m ∈ l).

(** The [max] the loop of [get_max_letter_dimensions] keeps. *)
Definition running_max (l : list Z) (start : Z) : Z :=
  fold_left (λ acc x, Z.max x acc) l start.

(** *** The encoding of a row, in the words of the spec *)

(** A pixel is on when its cell is not 0. *)
Definition pixel_on (c : Z) : bool := negb (c =? 0).

Definition bit_char (b : bool) : ascii := if b then "1"%char else "0"%char.

(** The value of a bit string, most significant bit first. *)
Definition bits_value (bits : list bool) : Z :=
  fold_left (λ acc (b : bool), 2 * acc + (if b then 1 else 0)) bits 0.

(** The [w] low hexadecimal digits of [n], most significant first: [n]
    written with exactly [w] digits, zeros on the left. *)
Fixpoint hex_fixed (w : nat) (n : Z) : str :=
  match w with
  | O => []
  | Datatypes.S w' => hex_fixed w' (n / 16) ++ [hex_digit (n mod 16)]
  end.

(** A list cut into groups of two from the left; a last element left alone
    makes a group of one. *)
Fixpoint groups_of_two {A : Type} (s : list A) : list (list A) :=
  match s with
  | a :: b :: s' => [a; b] :: groups_of_two s'
  | [a] => [[a]]
  | [] => []
  end.

(** [ceil(max_width / 4)] *)
Definition hex_digit_count (max_width : Z) : Z := (max_width + 3) / 4.

(** The literals of a row: its value in [hex_digit_count] digits, in groups
    of two, each after [0x]. *)
Definition encoded_hex (max_width : Z) (bits : list bool) : str :=
  join (lit ", ")
    (map (λ group, lit "0x" ++ group)
       (groups_of_two (hex_fixed (Z.to_nat (hex_digit_count max_width)) (bits_value bits)))).

(** The line of a row: its literals, then its pixels as [1] and [0]. *)
Definition encoded_line (max_width : Z) (row : list Z) : str :=
  encoded_hex max_width (map pixel_on row)
  ++ lit "," ++ [tab] ++ lit " // " ++ map bit_char (map pixel_on row).

(** One line of [result] in [to_bitfield], from the row of [new_array] it
    comes from. *)
Definition encode_line (max_width : Z) (row : list Z) : outcome str :=
  hexa ← row_hex (ceil_quarter max_width) (map (λ c : Z, if c =? 0 then 0 else 1) row);
  mret (hexa ++ lit "," ++ [tab] ++ lit " " ++ OUTPUT_SEPARATOR
        ++ join [] (map (λ c : Z, if c =? 0 then OUTPUT_EMPTY else OUTPUT_FILL) row)).

(** *** Reading a line back *)

(** The digits of a hexadecimal literal, in the order of their values. *)
Definition hex_alphabet : str := lit "0123456789abcdef".

(** The value of a hexadecimal digit: its place in [hex_alphabet]. *)
Definition hex_value (c : ascii) : option Z :=
  (λ found : nat * ascii, Z.of_nat found.1) <$> list_find (λ digit, digit = c) hex_alphabet.

(** The [k] low bits of [v], most significant first. *)
Fixpoint low_bits (k : nat) (v : Z) : list bool :=
  match k with
  | O => []
  | Datatypes.S k' => low_bits k' (v / 2) ++ [Z.odd v]
  end.

(** The four bits a hexadecimal digit stands for. *)
Definition nibble_bits (d : Z) : list bool := low_bits 4 d.

(** Where the reader of a line is: before the [0] of a literal, before its
    [x], among its digits, or behind the comma that ends it. *)
Inductive reading : Type :=
  | AtLiteral
  | AfterZero
  | InDigits
  | AfterComma.

(** Reads [0x.., 0x.., ...,<tab> // comment]: the bits of all the digits of
    the literals, four per digit, and the comment. *)
Fixpoint read_line (at_ : reading) (line : str) : option (list bool * str) :=
  match line with
  | [] => None
  | c :: rest =>
      match at_ with
      | AtLiteral => if Ascii.eqb c "0" then read_line AfterZero rest else None
      | AfterZero => if Ascii.eqb c "x" then read_line InDigits rest else None
      | InDigits =>
          if Ascii.eqb c "," then read_line AfterComma rest
          else
            match hex_value c, read_line InDigits rest with
            | Some d, Some (bits, com) => Some (nibble_bits d ++ bits, com)
            | _, _ => None
            end
      | AfterComma =>
          if Ascii.eqb c " " then read_line AtLiteral rest
          else if Ascii.eqb c tab then
            match rest with
            | " " :: "/" :: "/" :: " " :: com => Some ([], com)
            | _ => None
            end%char
          else None
      end
  end.

(** A line decoded: the bits of its hexadecimal literals without the
    padding bits on the left, which must all be 0, written with [1] and
    [0]; and its comment. *)
Definition decode_line (max_width : Z) (line : str) : option (str * str) :=
  match read_line AtLiteral line with
  | Some (bits, com) =>
      let padding := (length bits - Z.to_nat max_width)%nat in
      if forallb negb (take padding bits)
      then Some (map bit_char (drop padding bits), com)
      else None
  | None => None
  end.

(** The digits of [hex_fixed], as numbers. *)
Fixpoint nibbles (w : nat) (n : Z) : list Z :=
  match w with
  | O => []
  | Datatypes.S w' => nibbles w' (n / 16) ++ [n mod 16]
  end.

(** *** The whole run *)

(** What [char_to_pixels] returns on a canvas: an array of the size of the
    canvas and a flag for each of its rows, none set when the canvas has no
    column. *)
Definition rastered_on (width height : Z) (glyph : ndarray Z * list bool) : Prop :=
  ndarray_wf glyph.1
  ∧ nrows glyph.1 = Z.to_nat height
  ∧ ncols glyph.1 = Z.to_nat width
  ∧ length glyph.2 = Z.to_nat height
  ∧ (width = 0 → Forall (λ b, b = false) glyph.2).

(** *** Further definitions *)

(** Whether every row of [mask] that line 176 selects is a row of a shared
    mask of [n] rows. *)
Definition rows_fit (n : nat) (mask : list bool) : bool :=
  forallb (λ index, negb (near mask index) || (index <? n)%nat) (seq 0 (length mask)).

(** The number a string of hexadecimal digits writes, most significant
    digit first, from [acc]; [None] when a character is no digit. *)
Fixpoint hex_str_value_from (acc : Z) (hex_str : str) : option Z :=
  match hex_str with
  | [] => Some acc
  | c :: hex_str' =>
      match hex_value c with
      | Some d => hex_str_value_from (16 * acc + d) hex_str'
      | None => None
      end
  end.

Definition hex_str_value (hex_str : str) : option Z := hex_str_value_from 0 hex_str.

(** The rows of an array on a canvas of [h] rows and [w] columns: off
    pixels fill each row on the right, and rows of off pixels fill the
    canvas at the bottom. *)
Definition pad_rows (h w : nat) (rows : list (list Z)) : list (list Z) :=
  map (λ row, row ++ replicate (w - length row) 0) rows
  ++ replicate (h - length rows) (replicate w 0).


(** ** The font-size search *)

Section Search.

Context {PIL : FontEngine}.

Lemma while_ext {S : Type} (cond : S → bool) (body1 body2 : S → S) :
  (∀ s, body1 s = body2 s) →
  ∀ fuel s, while fuel cond body1 s = while fuel cond body2 s.
Proof.
  intros Hext fuel. induction fuel as [|fuel IH]; intros s; simpl.
  - reflexivity.
  - destruct (cond s); [|reflexivity]. rewrite Hext. apply IH.
Qed.

Lemma width_search_is_scan fuel string font px_width :
  determine_font_size_by_max_width fuel string font px_width
  = ascending_scan fuel (width_at string font) px_width.
Proof.
  unfold determine_font_size_by_max_width, ascending_scan. f_equal.
  apply while_ext. intros st. unfold scan_step, width_at.
  destruct (get_letter_dimensions string (truetype font (size st))); reflexivity.
Qed.

Lemma height_search_is_scan fuel string font px_height :
  determine_font_size_by_max_height fuel string font px_height
  = ascending_scan fuel (height_at string font) (px_height - 2).
Proof.
  unfold determine_font_size_by_max_height, ascending_scan. f_equal.
  apply while_ext. intros st. unfold scan_step, height_at.
  destruct (get_letter_dimensions string (truetype font (size st))); reflexivity.
Qed.

Section Scan.

Variable measure : Z → Z.
Variable limit : Z.

Let cond : scan → bool := λ st, dim st <? limit.

(** The loop leaves at the first size that measures [limit] or more,
    after having measured every size below it. *)
Lemma scan_loop_stops (k : nat) :
  ∀ fuel s d l,
    (k < fuel)%nat →
    d < limit →
    (∀ j, s ≤ j < s + Z.of_nat k → measure j < limit) →
    limit ≤ measure (s + Z.of_nat k) →
    while fuel cond (scan_step measure) {| dim := d; size := s; last_size := l |}
    = Return {| dim := measure (s + Z.of_nat k);
                size := s + Z.of_nat k + 1;
                last_size := s + Z.of_nat k |}.
Proof.
  induction k as [|k IH]; intros fuel s d l Hfuel Hd Hbelow Hreach.
  - destruct fuel as [|fuel]; [lia|]. simpl.
    unfold cond at 1. simpl. destruct (Z.ltb_spec d limit); [|lia].
    replace (s + Z.of_nat 0) with s in * by lia.
    destruct fuel; simpl; unfold cond; simpl;
      destruct (Z.ltb_spec (measure s) limit); try lia; reflexivity.
  - destruct fuel as [|fuel]; [lia|]. simpl.
    unfold cond at 1. simpl. destruct (Z.ltb_spec d limit); [|lia].
    unfold scan_step at 2. simpl.
    rewrite (IH fuel (s + 1) (measure s) s).
    + replace (s + 1 + Z.of_nat k) with (s + Z.of_nat (Datatypes.S k)) by lia.
      reflexivity.
    + lia.
    + apply Hbelow. lia.
    + intros j Hj. apply Hbelow. lia.
    + replace (s + 1 + Z.of_nat k) with (s + Z.of_nat (Datatypes.S k)) by lia. exact Hreach.
Qed.

(** While no size reaches [limit] the loop is still running, whatever
    the number of iterations allowed. *)
Lemma scan_loop_runs (fuel : nat) :
  ∀ s d l,
    d < limit →
    (∀ j, s ≤ j → measure j < limit) →
    while fuel cond (scan_step measure) {| dim := d; size := s; last_size := l |}
    = OutOfFuel.
Proof.
  induction fuel as [|fuel IH]; intros s d l Hd Hbelow; simpl;
    unfold cond at 1; simpl; destruct (Z.ltb_spec d limit); try lia.
  - reflexivity.
  - apply IH; simpl; [apply Hbelow; lia|]. intros j Hj. apply Hbelow. lia.
Qed.

(** A run that ends has reached [limit] at some size it measured, unless
    it never entered the loop. *)
Lemma scan_loop_returned (fuel : nat) :
  ∀ s d l st,
    while fuel cond (scan_step measure) {| dim := d; size := s; last_size := l |}
    = Return st →
    limit ≤ d ∨ ∃ j, s ≤ j ∧ limit ≤ measure j.
Proof.
  induction fuel as [|fuel IH]; intros s d l st; simpl;
    unfold cond at 1; simpl; destruct (Z.ltb_spec d limit); try (intros; left; lia).
  - discriminate.
  - intros Hrun. apply IH in Hrun as [Hnow | (j & Hj & Hreach)]; simpl in *.
    + right. exists s. lia.
    + right. exists j. lia.
Qed.

Lemma scan_loop_no_raise (fuel : nat) :
  ∀ st e, while fuel cond (scan_step measure) st ≠ Raise e.
Proof.
  induction fuel as [|fuel IH]; intros st e; simpl; destruct (cond st);
    try discriminate. apply IH.
Qed.

(** The first size from [s] on that reaches [limit], given one that
    does. *)
Lemma first_reaching (n : nat) :
  ∀ s, limit ≤ measure (s + Z.of_nat n) →
  ∃ k : nat, (k ≤ n)%nat ∧ limit ≤ measure (s + Z.of_nat k)
             ∧ ∀ j, s ≤ j < s + Z.of_nat k → measure j < limit.
Proof.
  induction n as [|n IH]; intros s Hreach.
  - exists O. repeat split; [lia | exact Hreach | lia].
  - destruct (Z_lt_le_dec (measure s) limit) as [Hlow | Hhigh].
    + destruct (IH (s + 1)) as (k & Hk & Hk_reach & Hk_below).
      { replace (s + 1 + Z.of_nat n) with (s + Z.of_nat (Datatypes.S n)) by lia. exact Hreach. }
      exists (Datatypes.S k). repeat split; [lia| |].
      * replace (s + Z.of_nat (Datatypes.S k)) with (s + 1 + Z.of_nat k) by lia. exact Hk_reach.
      * intros j Hj. destruct (Z.eq_dec j s) as [->|]; [exact Hlow|].
        apply Hk_below. lia.
    + exists O. repeat split; [lia| |lia].
      replace (s + Z.of_nat 0) with s by lia. exact Hhigh.
Qed.

(** What [ascending_scan] returns: with [s0] the first size that
    measures [limit] or more, [s0] itself when it measures more than
    [limit], and [s0 + 1] when it measures [limit] exactly. *)
Lemma ascending_scan_result (s0 : Z) (fuel : nat) :
  0 < limit →
  1 ≤ s0 →
  (∀ j, 1 ≤ j < s0 → measure j < limit) →
  limit ≤ measure s0 →
  (Z.to_nat s0 ≤ fuel)%nat →
  ascending_scan fuel measure limit
  = Return (if measure s0 >? limit then s0 else s0 + 1).
Proof.
  intros Hlimit Hs0 Hbelow Hreach Hfuel. unfold ascending_scan.
  pose proof (scan_loop_stops (Z.to_nat (s0 - 1)) fuel 1 0 1) as Hloop.
  unfold cond in Hloop. rewrite Hloop; try lia.
  - replace (1 + Z.of_nat (Z.to_nat (s0 - 1))) with s0 by lia. simpl.
    destruct (measure s0 >? limit); reflexivity.
  - intros j Hj. apply Hbelow. lia.
  - replace (1 + Z.of_nat (Z.to_nat (s0 - 1))) with s0 by lia. exact Hreach.
Qed.

Lemma ascending_scan_terminates :
  (∃ fuel r, ascending_scan fuel measure limit = Return r)
  ↔ (limit ≤ 0 ∨ ∃ s, 1 ≤ s ∧ limit ≤ measure s).
Proof.
  split.
  - intros (fuel & r & Hrun). unfold ascending_scan in Hrun.
    destruct (while fuel _ _ _) as [st| |] eqn:Hloop; try discriminate.
    apply scan_loop_returned in Hloop as [Hnow | (j & Hj & Hreach)].
    + left. exact Hnow.
    + right. exists j. split; assumption.
  - intros [Hnow | (s & Hs & Hreach)].
    + exists O. unfold ascending_scan. simpl.
      destruct (Z.ltb_spec 0 limit); [lia|]. simpl.
      destruct (0 >? limit); eexists; reflexivity.
    + destruct (Z_lt_le_dec 0 limit) as [Hpos | Hnonpos].
      * destruct (first_reaching (Z.to_nat (s - 1)) 1) as (k & Hk & Hk_reach & Hk_below).
        { replace (1 + Z.of_nat (Z.to_nat (s - 1))) with s by lia. exact Hreach. }
        exists (Datatypes.S k). eexists.
        apply (ascending_scan_result (1 + Z.of_nat k)); try lia; assumption.
      * exists O. unfold ascending_scan. simpl.
        destruct (Z.ltb_spec 0 limit); [lia|]. simpl.
        destruct (0 >? limit); eexists; reflexivity.
Qed.

Lemma ascending_scan_no_raise fuel e : ascending_scan fuel measure limit ≠ Raise e.
Proof.
  unfold ascending_scan.
  destruct (while fuel _ _ _) as [st| |] eqn:Hloop; simpl.
  - destruct (dim st >? limit); discriminate.
  - exfalso. exact (scan_loop_no_raise _ _ _ Hloop).
  - discriminate.
Qed.

End Scan.

End Search.

(** ** Properties of the font-size search *)

(** C1 (the searches return the largest size that fits the limit): the code
    at a monotonic font. In [block_font] the text "2" is 5, 10, 15 pixels
    wide at the sizes 1, 2, 3: under a width limit of 12 the largest size
    that fits is 2, and the width search returns 3, the first size that
    overshoots. The text "0" is 10, 20, 30 pixels high: under a height limit
    of 27 (25 once the two rows of padding are taken off) the largest size
    that fits is 2, and the height search returns 3. *)
Theorem C1_search_returns_overshooting_size :
  determine_font_size_by_max_width (PIL := block_font) 10 (lit "2") (lit "calibri.ttf") 12
  = Return 3
  ∧ width_at (PIL := block_font) (lit "2") (lit "calibri.ttf") 2 = 10
  ∧ width_at (PIL := block_font) (lit "2") (lit "calibri.ttf") 3 = 15
  ∧ determine_font_size_by_max_height (PIL := block_font) 10 (lit "0") (lit "calibri.ttf") 27
    = Return 3
  ∧ height_at (PIL := block_font) (lit "0") (lit "calibri.ttf") 2 = 20
  ∧ height_at (PIL := block_font) (lit "0") (lit "calibri.ttf") 3 = 30.
Proof. repeat split; vm_compute; reflexivity. Qed.

(** C5 (mode [max_px_both]): when the height search returns [size_by_height]
    and the width search returns [size_by_width], the size [font_to_pixels]
    goes on with is the smaller of the two. *)
Theorem C5_both_mode_takes_minimum (PIL : FontEngine) (fuel : nat) (font_path : str)
    (all_letters max_width_string : list codepoint)
    (letter_max_px_width str_max_px_width input_font_size size_by_height size_by_width : Z) :
  determine_font_size_by_max_height fuel all_letters font_path letter_max_px_width
  = Return size_by_height →
  determine_font_size_by_max_width fuel max_width_string font_path str_max_px_width
  = Return size_by_width →
  font_to_pixels_font_size fuel font_path all_letters (lit "max_px_both")
    letter_max_px_width str_max_px_width max_width_string input_font_size
  = Return (Some (Z.min size_by_height size_by_width)).
Proof.
  intros Hheight Hwidth. unfold font_to_pixels_font_size.
  repeat (destruct (decide _) as [Heq|_]; [discriminate Heq|]).
  destruct (decide _) as [_|Hne]; [|contradiction].
  rewrite Hheight, Hwidth. reflexivity.
Qed.

(** The example of C5: a size of 12 by height and of 9 by width give 9. *)
Lemma C5_both_mode_12_and_9 :
  determine_font_size_by_max_height (PIL := block_font) 20 (lit "01") (lit "calibri.ttf") 117
  = Return 12
  ∧ determine_font_size_by_max_width (PIL := block_font) 20 (lit "23") (lit "calibri.ttf") 85
    = Return 9
  ∧ font_to_pixels_font_size (PIL := block_font) 20 (lit "calibri.ttf") (lit "01")
      (lit "max_px_both") 117 85 (lit "23") 60
    = Return (Some 9).
Proof.
  split; [vm_compute; reflexivity|]. split; [vm_compute; reflexivity|].
  exact (C5_both_mode_takes_minimum block_font 20 (lit "calibri.ttf") (lit "01") (lit "23")
           117 85 60 12 9 eq_refl eq_refl).
Defined.

(** C7, as the spec has it, fails: the search has no bound on the sizes it
    tries. The empty text measures 0 at every size of [block_font], and
    under a width limit of 10 the search is still in its loop after any
    number of iterations: it returns nothing and reports nothing. *)
Lemma C7_search_has_no_upper_bound :
  ¬ ∃ fuel : nat,
      determine_font_size_by_max_width (PIL := block_font) fuel [] (lit "calibri.ttf") 10
      ≠ OutOfFuel.
Proof.
  intros [fuel Hends]. apply Hends.
  rewrite width_search_is_scan. unfold ascending_scan.
  rewrite scan_loop_runs; [reflexivity | lia |].
  intros j _. unfold width_at. simpl. lia.
Qed.

(** C7, amended: the searches try the sizes 1, 2, 3, ... with no upper
    bound and never raise. The width search returns exactly when the limit
    is not positive or some size measures the limit or more; the height
    search likewise, for the limit less 2. *)
Theorem C7_search_returns_iff_limit_reached (PIL : FontEngine) (string : list codepoint)
    (font : str) (limit : Z) :
  ((∃ fuel r, determine_font_size_by_max_width fuel string font limit = Return r)
   ↔ (limit ≤ 0 ∨ ∃ s, 1 ≤ s ∧ limit ≤ width_at string font s))
  ∧ ((∃ fuel r, determine_font_size_by_max_height fuel string font limit = Return r)
     ↔ (limit - 2 ≤ 0 ∨ ∃ s, 1 ≤ s ∧ limit - 2 ≤ height_at string font s))
  ∧ (∀ fuel e, determine_font_size_by_max_width fuel string font limit ≠ Raise e
               ∧ determine_font_size_by_max_height fuel string font limit ≠ Raise e).
Proof.
  split; [|split].
  - rewrite <- ascending_scan_terminates.
    split; intros (fuel & r & Hrun); exists fuel, r;
      [rewrite <- width_search_is_scan | rewrite width_search_is_scan]; exact Hrun.
  - rewrite <- ascending_scan_terminates.
    split; intros (fuel & r & Hrun); exists fuel, r;
      [rewrite <- height_search_is_scan | rewrite height_search_is_scan]; exact Hrun.
  - intros fuel e. rewrite width_search_is_scan, height_search_is_scan.
    split; apply ascending_scan_no_raise.
Qed.

(** ** The shared row mask *)

Lemma getitem_lookup {A : Type} (l : list A) (z : Z) (x : A) :
  0 ≤ z → l !! Z.to_nat z = Some x → getitem l z = Return x.
Proof.
  intros Hz Hx. unfold getitem.
  pose proof (lookup_lt_Some _ _ _ Hx) as Hlt.
  destruct (Z.ltb_spec z 0); [lia|].
  destruct (Z.leb_spec 0 z); [|lia].
  destruct (Z.ltb_spec z (Z.of_nat (length l))); [|lia].
  simpl. rewrite Hx. reflexivity.
Qed.

Lemma getitem_last_Forall {A : Type} (P : A → Prop) (l : list A) :
  Forall P l → l ≠ [] → ∃ x, getitem l (-1) = Return x ∧ P x.
Proof.
  intros HP Hne. unfold getitem.
  assert (0 < length l)%nat as Hlen by (destruct l; [congruence | simpl; lia]).
  change (-1 <? 0) with true. cbv iota.
  destruct (Z.leb_spec 0 (Z.of_nat (length l) + -1)); [|lia].
  destruct (Z.ltb_spec (Z.of_nat (length l) + -1) (Z.of_nat (length l))); [|lia].
  simpl.
  destruct (lookup_lt_is_Some_2 l (Z.to_nat (Z.of_nat (length l) + -1))) as [x Hx]; [lia|].
  rewrite Hx. exists x. split; [reflexivity|].
  rewrite Forall_lookup in HP. exact (HP _ _ Hx).
Qed.

Lemma getitem_nil {A : Type} (z : Z) : getitem (@nil A) z = Raise IndexError.
Proof.
  unfold getitem. simpl. destruct (z <? 0); destruct (_ && _); reflexivity.
Qed.

Lemma mask_step_mark (mask total_mask : list bool) (index : nat) :
  (index < length mask)%nat →
  length total_mask = length mask →
  mask_step mask total_mask index = Return (mark_row mask total_mask index).
Proof.
  intros Hindex Hlen. unfold mask_step, mark_row, near.
  destruct (lookup_lt_is_Some_2 mask index Hindex) as [here Hhere].
  destruct (lookup_lt_is_Some_2 mask (Z.to_nat (Z.max (Z.of_nat index - 1) 0)))
    as [above Habove]; [lia|].
  destruct (lookup_lt_is_Some_2 mask
              (Z.to_nat (Z.min (Z.of_nat index + 1) (Z.of_nat (length mask) - 1))))
    as [below Hbelow]; [lia|].
  rewrite (getitem_lookup mask (Z.of_nat index) here); [|lia|by rewrite Nat2Z.id].
  rewrite Hhere, Habove, Hbelow. simpl.
  assert (setitem total_mask index true = Return (<[index:=true]> total_mask)) as Hset.
  { unfold setitem. destruct (Nat.ltb_spec index (length total_mask)); [reflexivity|lia]. }
  destruct here; simpl; [exact Hset|].
  rewrite (getitem_lookup mask (Z.max (Z.of_nat index - 1) 0) above); [|lia|exact Habove]. simpl.
  destruct above; simpl; [exact Hset|].
  rewrite (getitem_lookup mask (Z.min (Z.of_nat index + 1) (Z.of_nat (length mask) - 1)) below); [|lia|exact Hbelow]. simpl.
  destruct below; simpl; [exact Hset|reflexivity].
Qed.

Lemma length_mark_row mask total_mask index :
  length (mark_row mask total_mask index) = length total_mask.
Proof. unfold mark_row. destruct (near mask index); [apply length_insert|reflexivity]. Qed.

Lemma mask_loop_mark (mask : list bool) (k : nat) :
  ∀ (a : nat) (total_mask : list bool),
    (a + k ≤ length mask)%nat →
    length total_mask = length mask →
    foldM_outcome (mask_step mask) (seq a k) total_mask
    = Return (fold_left (mark_row mask) (seq a k) total_mask).
Proof.
  induction k as [|k IH]; intros a total_mask Hrange Hlen; simpl; [reflexivity|].
  rewrite mask_step_mark; [|lia|exact Hlen]. simpl.
  apply IH; [lia|]. rewrite length_mark_row. exact Hlen.
Qed.

Lemma length_fold_mark_row mask (l : list nat) :
  ∀ total_mask, length (fold_left (mark_row mask) l total_mask) = length total_mask.
Proof.
  induction l as [|i l IH]; intros total_mask; simpl; [reflexivity|].
  rewrite IH. apply length_mark_row.
Qed.

Lemma lookup_fold_mark_row mask (k : nat) :
  ∀ (a : nat) (total_mask : list bool) (j : nat) (b : bool),
    total_mask !! j = Some b →
    fold_left (mark_row mask) (seq a k) total_mask !! j
    = Some (b || (bool_decide (a ≤ j < a + k)%nat && near mask j)).
Proof.
  induction k as [|k IH]; intros a total_mask j b Hj; simpl.
  - rewrite Hj. f_equal. rewrite bool_decide_eq_false_2 by lia. simpl.
    by rewrite orb_false_r.
  - assert (mark_row mask total_mask a !! j
            = Some (b || (bool_decide (j = a) && near mask j))) as Hstep.
    { unfold mark_row. destruct (decide (j = a)) as [->|Hne].
      - rewrite bool_decide_eq_true_2 by reflexivity. simpl.
        destruct (near mask a).
        + rewrite list_lookup_insert_eq by (eapply lookup_lt_Some, Hj).
          by rewrite orb_true_r.
        + by rewrite orb_false_r.
      - rewrite bool_decide_eq_false_2 by exact Hne. simpl. rewrite orb_false_r.
        destruct (near mask a); [|exact Hj].
        rewrite list_lookup_insert_ne by congruence. exact Hj. }
    rewrite (IH _ _ _ _ Hstep). f_equal.
    destruct (near mask j); simpl; rewrite ?andb_false_r, ?orb_false_r; [|reflexivity].
    rewrite !andb_true_r.
    destruct b; simpl; [reflexivity|].
    repeat case_bool_decide; simpl; try reflexivity; lia.
Qed.

Lemma length_mark_mask total_mask mask : length (mark_mask total_mask mask) = length total_mask.
Proof. apply length_fold_mark_row. Qed.

Lemma lookup_mark_mask total_mask mask (j : nat) (b : bool) :
  length mask = length total_mask →
  total_mask !! j = Some b →
  mark_mask total_mask mask !! j = Some (b || near mask j).
Proof.
  intros Hlen Hj. unfold mark_mask. rewrite (lookup_fold_mark_row _ _ _ _ _ _ Hj).
  apply lookup_lt_Some in Hj. rewrite bool_decide_eq_true_2 by lia. reflexivity.
Qed.

Lemma length_fold_mark_mask (masks : list (list bool)) :
  ∀ total_mask, length (fold_left mark_mask masks total_mask) = length total_mask.
Proof.
  induction masks as [|mask masks IH]; intros total_mask; simpl; [reflexivity|].
  rewrite IH. apply length_mark_mask.
Qed.

Lemma lookup_fold_mark_mask (n : nat) (masks : list (list bool)) :
  Forall (λ mask, length mask = n) masks →
  ∀ (total_mask : list bool) (j : nat) (b : bool),
    length total_mask = n →
    total_mask !! j = Some b →
    fold_left mark_mask masks total_mask !! j
    = Some (b || existsb (λ mask, near mask j) masks).
Proof.
  induction 1 as [|mask masks Hmask Hmasks IH]; intros total_mask j b Hlen Hj; simpl.
  - by rewrite orb_false_r.
  - rewrite (IH _ j (b || near mask j)).
    + by rewrite orb_assoc.
    + rewrite length_mark_mask. exact Hlen.
    + apply lookup_mark_mask; [congruence|exact Hj].
Qed.

Lemma masks_loop_mark (n : nat) (masks : list (list bool)) :
  Forall (λ mask, length mask = n) masks →
  ∀ total_mask : list bool,
    length total_mask = n →
    foldM_outcome
      (λ total_mask mask, foldM_outcome (mask_step mask) (seq 0 (length mask)) total_mask)
      masks total_mask
    = Return (fold_left mark_mask masks total_mask).
Proof.
  induction 1 as [|mask masks Hmask Hmasks IH]; intros total_mask Hlen; simpl; [reflexivity|].
  rewrite mask_loop_mark; [|lia|congruence]. simpl.
  apply IH. fold (mark_mask total_mask mask). rewrite length_mark_mask. exact Hlen.
Qed.

Lemma determine_final_height_nil : determine_final_height [] = Raise IndexError.
Proof. reflexivity. Qed.

Lemma determine_final_height_shared (n : nat) (masks : list (list bool)) :
  masks ≠ [] →
  Forall (λ mask, length mask = n) masks →
  determine_final_height masks
  = Return (shared_mask n masks, count (shared_mask n masks) true).
Proof.
  intros Hne Hlen. unfold determine_final_height.
  destruct (getitem_last_Forall _ _ Hlen Hne) as (last & -> & Hlast). simpl.
  rewrite (masks_loop_mark n); [|exact Hlen|rewrite length_replicate; exact Hlast].
  rewrite Hlast. reflexivity.
Qed.

Lemma length_shared_mask n masks : length (shared_mask n masks) = n.
Proof. unfold shared_mask. rewrite length_fold_mark_mask. apply length_replicate. Qed.

Lemma lookup_shared_mask (n : nat) (masks : list (list bool)) (j : nat) :
  Forall (λ mask, length mask = n) masks →
  (j < n)%nat →
  shared_mask n masks !! j = Some (existsb (λ mask, near mask j) masks).
Proof.
  intros Hlen Hj. unfold shared_mask.
  rewrite (lookup_fold_mark_mask n masks Hlen _ j false).
  - reflexivity.
  - apply length_replicate.
  - apply lookup_replicate_2. exact Hj.
Qed.

Lemma near_of_set (mask : list bool) (i j : nat) :
  mask !! i = Some true →
  j = i ∨ j = (i - 1)%nat ∨ j = Nat.min (i + 1) (length mask - 1) →
  near mask j = true.
Proof.
  intros Hi Hj. pose proof (lookup_lt_Some _ _ _ Hi) as Hlt. unfold near.
  destruct (decide (j = i)) as [->|Hne]; [by rewrite Hi|].
  destruct (decide (j < i)%nat) as [Hless|Hmore].
  - replace (Z.to_nat (Z.min (Z.of_nat j + 1) (Z.of_nat (length mask) - 1))) with i by lia.
    rewrite Hi. simpl. by rewrite orb_true_r.
  - replace (Z.to_nat (Z.max (Z.of_nat j - 1) 0)) with i by lia.
    rewrite Hi. simpl. by rewrite orb_true_r.
Qed.

Lemma count_le_length {A : Type} `{EqDecision A} (l : list A) (x : A) :
  count l x ≤ Z.of_nat (length l).
Proof. unfold count. pose proof (length_filter (λ y, y = x) l). lia. Qed.

Lemma count_pos {A : Type} `{EqDecision A} (l : list A) (x : A) (i : nat) :
  l !! i = Some x → 0 < count l x.
Proof.
  intros Hi. unfold count.
  assert (x ∈ filter (λ y, y = x) l) as Hin.
  { apply list_elem_of_filter. split; [reflexivity|]. eapply list_elem_of_lookup_2, Hi. }
  destruct (filter _ l); [by apply not_elem_of_nil in Hin | simpl; lia].
Qed.

(** C2 (dilation): with masks of one length [n], whatever
    [determine_final_height] returns has [actual_height] equal to the number
    of [True] entries of the shared mask, and for every row [i] set in some
    glyph's mask the shared mask is set at [i - 1], [i] and [i + 1], the
    indices clamped to [0 .. n - 1]. It does return as soon as there is a
    mask at all. *)
Theorem C2_shared_mask_dilates (masks : list (list bool)) (n : nat) :
  Forall (λ mask, length mask = n) masks →
  (masks ≠ [] →
   ∃ total_mask actual_height,
     determine_final_height masks = Return (total_mask, actual_height))
  ∧ ∀ total_mask actual_height,
      determine_final_height masks = Return (total_mask, actual_height) →
      actual_height = Z.of_nat (length (filter (λ b, b = true) total_mask))
      ∧ ∀ mask i,
          mask ∈ masks → mask !! i = Some true →
          total_mask !! Nat.max (i - 1) 0 = Some true
          ∧ total_mask !! i = Some true
          ∧ total_mask !! Nat.min (i + 1) (n - 1) = Some true.
Proof.
  intros Hlen. split.
  - intros Hne. rewrite (determine_final_height_shared n) by assumption. eauto.
  - intros total_mask actual_height Hrun.
    destruct masks as [|mask0 masks']; [discriminate Hrun|].
    rewrite (determine_final_height_shared n) in Hrun by (assumption || discriminate).
    injection Hrun as <- <-. split; [reflexivity|].
    intros mask i Hin Hi.
    assert (length mask = n) as Hmask by (rewrite Forall_forall in Hlen; auto).
    pose proof (lookup_lt_Some _ _ _ Hi) as Hlt.
    assert (∀ j, j = i ∨ j = (i - 1)%nat ∨ j = Nat.min (i + 1) (length mask - 1) →
                 shared_mask n (mask0 :: masks') !! j = Some true) as Hset.
    { intros j Hj. rewrite lookup_shared_mask by (assumption || lia). f_equal.
      apply existsb_exists. exists mask. split; [by apply list_elem_of_In|].
      by apply (near_of_set mask i j). }
    repeat split; apply Hset; [right; left; lia | left; reflexivity | right; right; congruence].
Qed.

(** Example 1 of the spec, through C2: a blank glyph and a glyph with its
    centre row set, over three rows, give a shared mask set everywhere. *)
Lemma C2_shared_mask_example :
  determine_final_height [[false; false; false]; [false; true; false]]
  = Return ([true; true; true], 3)
  ∧ ∀ total_mask actual_height,
      determine_final_height [[false; false; false]; [false; true; false]]
      = Return (total_mask, actual_height) →
      actual_height = Z.of_nat (length (filter (λ b, b = true) total_mask))
      ∧ ∀ mask i,
          mask ∈ [[false; false; false]; [false; true; false]] → mask !! i = Some true →
          total_mask !! Nat.max (i - 1) 0 = Some true
          ∧ total_mask !! i = Some true
          ∧ total_mask !! Nat.min (i + 1) (3 - 1) = Some true.
Proof.
  split; [vm_compute; reflexivity|].
  apply (C2_shared_mask_dilates [[false; false; false]; [false; true; false]] 3).
  repeat constructor.
Defined.

(** C6 (bounds of the trimmed height): for a non-empty list of masks of
    length [max_height], [determine_final_height] returns an
    [actual_height] of at most [max_height], and a positive one when some
    mask has a row set. *)
Theorem C6_actual_height_bounds (masks : list (list bool)) (max_height : nat) :
  masks ≠ [] →
  Forall (λ mask, length mask = max_height) masks →
  ∃ total_mask actual_height,
    determine_final_height masks = Return (total_mask, actual_height)
    ∧ actual_height ≤ Z.of_nat max_height
    ∧ ((∃ mask i, mask ∈ masks ∧ mask !! i = Some true) → 0 < actual_height).
Proof.
  intros Hne Hlen. exists (shared_mask max_height masks), (count (shared_mask max_height masks) true).
  split; [by apply determine_final_height_shared|]. split.
  - rewrite <- (length_shared_mask max_height masks) at 2. apply count_le_length.
  - intros (mask & i & Hin & Hi). apply (count_pos _ _ i).
    assert (length mask = max_height) as Hmask by (rewrite Forall_forall in Hlen; auto).
    rewrite lookup_shared_mask; [|assumption|apply lookup_lt_Some in Hi; lia].
    f_equal. apply existsb_exists. exists mask. split; [by apply list_elem_of_In|].
    apply (near_of_set mask i i Hi). left. reflexivity.
Qed.

Lemma C6_actual_height_example :
  ∃ total_mask actual_height,
    determine_final_height [[false; false; false; false]; [false; false; false; true]]
    = Return (total_mask, actual_height)
    ∧ actual_height ≤ 4
    ∧ ((∃ mask i, mask ∈ [[false; false; false; false]; [false; false; false; true]]
                  ∧ mask !! i = Some true) → 0 < actual_height).
Proof.
  apply (C6_actual_height_bounds [[false; false; false; false]; [false; false; false; true]] 4).
  - discriminate.
  - repeat constructor.
Defined.

(** ** The canvas dimensions *)

Lemma running_max_bounds (l : list Z) :
  ∀ start,
    start ≤ running_max l start
    ∧ (∀ x, x ∈ l → x ≤ running_max l start)
    ∧ (running_max l start = start ∨ running_max l start ∈ l).
Proof.
  induction l as [|y l IH]; intros start; simpl.
  - split; [lia|]. split; [|left; reflexivity]. intros x Hx. by apply not_elem_of_nil in Hx.
  - destruct (IH (Z.max y start)) as (Hstart & Hall & Hfrom).
    fold (running_max l (Z.max y start)). split; [lia|]. split.
    + intros x Hx. apply elem_of_cons in Hx as [->|Hx]; [lia|auto].
    + destruct Hfrom as [Heq|Hin].
      * rewrite Heq. destruct (Z.max_spec y start) as [[_ ->]|[_ ->]].
        -- left. reflexivity.
        -- right. left.
      * right. by right.
Qed.

Lemma running_max_is_max (l : list Z) :
  (∀ x, x ∈ l → 0 ≤ x) → is_max_of (running_max l 0) l.
Proof.
  intros Hpos. destruct (running_max_bounds l 0) as (Hstart & Hall & Hfrom).
  split; [exact Hall|]. split.
  - intros ->. reflexivity.
  - intros Hne. destruct Hfrom as [Heq|Hin]; [|exact Hin].
    destruct l as [|y l]; [congruence|].
    assert (y = 0) as ->.
    { assert (y ≤ running_max (y :: l) 0) by (apply Hall; left).
      assert (0 ≤ y) by (apply Hpos; left). lia. }
    rewrite Heq. left.
Qed.

Section Dimensions.
Context {PIL : FontEngine}.

Lemma max_letter_loop (font_inst : ImageFont) (base_string : list codepoint) :
  ∀ max_width max_height,
    fold_left (λ '(max_width, max_height) char,
                 let '(char_width, char_height) := get_letter_dimensions [char] font_inst in
                 (Z.max char_width max_width, Z.max char_height max_height))
              base_string (max_width, max_height)
    = (running_max (map (λ char, (get_letter_dimensions [char] font_inst).1) base_string)
                   max_width,
       running_max (map (λ char, (get_letter_dimensions [char] font_inst).2) base_string)
                   max_height).
Proof.
  induction base_string as [|char base_string IH]; intros max_width max_height; simpl.
  - reflexivity.
  - destruct (get_letter_dimensions [char] font_inst) as [char_width char_height]. simpl.
    apply IH.
Qed.

End Dimensions.

(** C8 (canvas dimensions): over the characters of the alphabet, each
    measured on its own, [max_width] is the largest width and [max_height]
    is twice the largest height, the ink boxes the engine reports being
    boxes ([l <= r] and [t <= b]). *)
Theorem C8_canvas_dimensions (PIL : FontEngine) (base_string : list codepoint)
    (font_inst : ImageFont) :
  (∀ char, char ∈ base_string →
           let '(l, t, r, b) := getbbox font_inst [char] in l ≤ r ∧ t ≤ b) →
  ∃ widest tallest,
    is_max_of widest (map (λ char, (get_letter_dimensions [char] font_inst).1) base_string)
    ∧ is_max_of tallest (map (λ char, (get_letter_dimensions [char] font_inst).2) base_string)
    ∧ get_max_letter_dimensions base_string font_inst = (widest, 2 * tallest).
Proof.
  intros Hbox.
  exists (running_max (map (λ char, (get_letter_dimensions [char] font_inst).1) base_string) 0),
         (running_max (map (λ char, (get_letter_dimensions [char] font_inst).2) base_string) 0).
  split; [|split].
  - apply running_max_is_max. intros x Hx.
    apply list_elem_of_fmap in Hx as (char & -> & Hchar). specialize (Hbox char Hchar).
    unfold get_letter_dimensions. destruct (getbbox font_inst [char]) as [[[l t] r] b].
    simpl. lia.
  - apply running_max_is_max. intros x Hx.
    apply list_elem_of_fmap in Hx as (char & -> & Hchar). specialize (Hbox char Hchar).
    unfold get_letter_dimensions. destruct (getbbox font_inst [char]) as [[[l t] r] b].
    simpl. lia.
  - unfold get_max_letter_dimensions. rewrite max_letter_loop. f_equal. lia.
Qed.

Lemma C8_canvas_dimensions_example :
  get_max_letter_dimensions (PIL := block_font) (lit "01") 3 = (15, 60)
  ∧ ∃ widest tallest,
    is_max_of widest
      (map (λ char, (get_letter_dimensions (PIL := block_font) [char] 3).1) (lit "01"))
    ∧ is_max_of tallest
        (map (λ char, (get_letter_dimensions (PIL := block_font) [char] 3).2) (lit "01"))
    ∧ get_max_letter_dimensions (PIL := block_font) (lit "01") 3 = (widest, 2 * tallest).
Proof.
  split; [vm_compute; reflexivity|].
  apply (C8_canvas_dimensions block_font (lit "01") 3).
  intros char Hchar. simpl. lia.
Defined.


(** ** The row encoder *)

Lemma mapM_outcome_zip {A B C D E : Type} (f : B → outcome C) (g : A → B)
    (h : C → D → E) (k : A → D) (l : list A) :
  (ys ← mapM_outcome f (map g l); mret (zip_with h ys (map k l)))
  = mapM_outcome (λ x, y ← f (g x); mret (h y (k x))) l.
Proof.
  induction l as [|x l IH]; simpl; [reflexivity|].
  rewrite <- IH. destruct (f (g x)) as [y| |]; simpl; try reflexivity.
  destruct (mapM_outcome f (map g l)); reflexivity.
Qed.

Lemma to_bitfield_result_lines (arr : ndarray Z) (max_height max_width : Z) :
  to_bitfield_result arr max_height max_width
  = (zeros ← np_zeros max_height max_width;
     new_array ← assign_corner zeros arr;
     mapM_outcome (encode_line max_width) (cells new_array)).
Proof.
  unfold to_bitfield_result.
  destruct (np_zeros max_height max_width) as [zeros| |]; simpl; try reflexivity.
  destruct (assign_corner zeros arr) as [new_array| |]; simpl; try reflexivity.
  rewrite !map_map.
  exact (mapM_outcome_zip (row_hex (ceil_quarter max_width))
           (map (λ c : Z, if c =? 0 then 0 else 1))
           (λ hexa com, hexa ++ lit "," ++ [tab] ++ lit " " ++ OUTPUT_SEPARATOR ++ com)
           (λ row, join [] (map (λ c : Z, if c =? 0 then OUTPUT_EMPTY else OUTPUT_FILL) row))
           (cells new_array)).
Qed.

Lemma join_bits (row : list Z) :
  join [] (map str_of_int (map (λ c : Z, if c =? 0 then 0 else 1) row))
  = map bit_char (map pixel_on row).
Proof.
  induction row as [|c row IH]; [reflexivity|].
  simpl map. rewrite <- IH.
  assert (str_of_int (if c =? 0 then 0 else 1) = [bit_char (pixel_on c)]) as ->.
  { unfold pixel_on. destruct (c =? 0); reflexivity. }
  destruct row; reflexivity.
Qed.

Lemma join_comment (row : list Z) :
  join [] (map (λ c : Z, if c =? 0 then OUTPUT_EMPTY else OUTPUT_FILL) row)
  = map bit_char (map pixel_on row).
Proof.
  induction row as [|c row IH]; [reflexivity|].
  simpl map. rewrite <- IH.
  assert ((if c =? 0 then OUTPUT_EMPTY else OUTPUT_FILL) = [bit_char (pixel_on c)]) as ->.
  { unfold pixel_on. destruct (c =? 0); reflexivity. }
  destruct row; reflexivity.
Qed.

Lemma int_base2_go_bits (bits : list bool) :
  ∀ acc, int_base2_go (map bit_char bits) acc
         = Return (fold_left (λ acc (b : bool), 2 * acc + (if b then 1 else 0)) bits acc).
Proof.
  induction bits as [|b bits IH]; intros acc; simpl; [reflexivity|].
  destruct b; simpl; rewrite IH; do 2 f_equal; lia.
Qed.

Lemma int_base2_bits (bits : list bool) :
  bits ≠ [] → int_base2 (map bit_char bits) = Return (bits_value bits).
Proof.
  intros Hne. destruct bits as [|b bits]; [congruence|].
  unfold int_base2. simpl map. cbv iota. exact (int_base2_go_bits (b :: bits) 0).
Qed.

Lemma int_base2_nil : int_base2 [] = Raise ValueError.
Proof. reflexivity. Qed.

Lemma bits_value_snoc (bits : list bool) (b : bool) :
  bits_value (bits ++ [b]) = 2 * bits_value bits + (if b then 1 else 0).
Proof. unfold bits_value. rewrite fold_left_app. reflexivity. Qed.

Lemma bits_value_range (bits : list bool) :
  0 ≤ bits_value bits < 2 ^ Z.of_nat (length bits).
Proof.
  induction bits as [|b bits IH] using rev_ind; [unfold bits_value; simpl; lia|].
  rewrite bits_value_snoc, length_app. simpl length.
  replace (Z.of_nat (length bits + 1)) with (Z.succ (Z.of_nat (length bits))) by lia.
  rewrite Z.pow_succ_r by lia. destruct b; lia.
Qed.

Lemma hex_fixed_snoc (w : nat) (n : Z) :
  hex_fixed (Datatypes.S w) n = hex_fixed w (n / 16) ++ [hex_digit (n mod 16)].
Proof. reflexivity. Qed.

Lemma length_hex_fixed (w : nat) : ∀ n, length (hex_fixed w n) = w.
Proof.
  induction w as [|w IH]; intros n; simpl; [reflexivity|].
  rewrite length_app, IH. simpl. lia.
Qed.

(** One more digit on the left of a number that fits is a zero. *)
Lemma hex_fixed_zero_left (w : nat) :
  ∀ n, 0 ≤ n < 16 ^ Z.of_nat w → hex_fixed (Datatypes.S w) n = "0"%char :: hex_fixed w n.
Proof.
  induction w as [|w IH]; intros n Hn.
  - assert (n = 0) as -> by (simpl in Hn; lia). reflexivity.
  - rewrite hex_fixed_snoc, IH.
    + reflexivity.
    + rewrite Nat2Z.inj_succ, Z.pow_succ_r in Hn by lia.
      split; [apply Z.div_pos; lia | apply Z.div_lt_upper_bound; lia].
Qed.

Lemma hex_fixed_pad (k p : nat) (n : Z) :
  0 ≤ n < 16 ^ Z.of_nat k →
  replicate p "0"%char ++ hex_fixed k n = hex_fixed (p + k) n.
Proof.
  intros Hn. induction p as [|p IH]; [reflexivity|].
  simpl replicate. simpl "++". rewrite IH.
  change (Datatypes.S p + k)%nat with (Datatypes.S (p + k)).
  symmetry. apply hex_fixed_zero_left.
  split; [lia|]. eapply Z.lt_le_trans; [apply Hn|].
  apply Z.pow_le_mono_r; lia.
Qed.

(** [hex_digits_go] writes [n] with as few digits as it takes. *)
Lemma hex_digits_go_fixed (fuel : nat) :
  ∀ n acc,
    (1 ≤ fuel)%nat →
    0 ≤ n < 16 ^ Z.of_nat fuel →
    ∃ k : nat,
      (1 ≤ k ≤ fuel)%nat
      ∧ n < 16 ^ Z.of_nat k
      ∧ (k = 1%nat ∨ 16 ^ (Z.of_nat k - 1) ≤ n)
      ∧ hex_digits_go fuel n acc = hex_fixed k n ++ acc.
Proof.
  induction fuel as [|fuel IH]; intros n acc Hfuel Hn; [lia|].
  simpl hex_digits_go. destruct (Z.eqb_spec (n / 16) 0) as [Hzero|Hmore].
  - exists 1%nat. assert (n < 16).
      { destruct (Z_lt_le_dec n 16); [assumption|].
        assert (1 ≤ n / 16) by (apply Z.div_le_lower_bound; lia). lia. }
      split; [lia|]. split; [simpl; lia|]. split; [left; reflexivity|]. reflexivity.
  - rewrite Nat2Z.inj_succ, Z.pow_succ_r in Hn by lia.
      assert (0 ≤ n / 16 < 16 ^ Z.of_nat fuel) as Hquot.
      { split; [apply Z.div_pos; lia | apply Z.div_lt_upper_bound; lia]. }
      assert (1 ≤ fuel)%nat as Hfuel'.
      { destruct fuel; [simpl in Hquot; lia | lia]. }
      destruct (IH (n / 16) (hex_digit (n mod 16) :: acc) Hfuel' Hquot)
        as (k & Hk & Hfit & Hmin & Hgo).
      exists (Datatypes.S k). rewrite Hgo, hex_fixed_snoc, <- app_assoc.
      split; [lia|]. split; [|split; [|reflexivity]].
      * rewrite Nat2Z.inj_succ, Z.pow_succ_r by lia.
        pose proof (Z.div_mod n 16). pose proof (Z.mod_pos_bound n 16). lia.
      * right. replace (Z.of_nat (Datatypes.S k) - 1) with (Z.succ (Z.of_nat k - 1)) by lia.
        rewrite Z.pow_succ_r by lia.
        pose proof (Z.div_mod n 16). pose proof (Z.mod_pos_bound n 16).
        destruct Hmin as [->|Hmin]; simpl in *; lia.
Qed.

Lemma format_0x_fixed (num width : Z) :
  1 ≤ width →
  0 ≤ num < 16 ^ width →
  format_0x num width = Return (hex_fixed (Z.to_nat width) num).
Proof.
  intros Hwidth Hnum. unfold format_0x.
  destruct (Z.ltb_spec width 0); [lia|].
  destruct (Z.ltb_spec num 0); [lia|].
  rewrite Z.abs_eq by lia. unfold hex_digits.
  destruct (hex_digits_go_fixed (Datatypes.S (Z.to_nat (Z.log2 num))) num [])
    as (k & Hk & Hfit & Hmin & ->); [lia| |].
  { split; [lia|]. destruct (Z.eq_dec num 0) as [->|Hpos]; [simpl; lia|].
    destruct (Z.log2_spec num) as [_ Hlog]; [lia|].
    eapply Z.lt_le_trans; [exact Hlog|].
    rewrite Nat2Z.inj_succ, Z2Nat.id by apply Z.log2_nonneg.
    apply Z.pow_le_mono_l. lia. }
  rewrite app_nil_r, length_hex_fixed. simpl length. f_equal.
  assert (k ≤ Z.to_nat width)%nat as Hle.
  { destruct Hmin as [->|Hmin]; [lia|].
    destruct (Z_lt_le_dec width (Z.of_nat k)); [|lia].
    assert (16 ^ width ≤ 16 ^ (Z.of_nat k - 1)) by (apply Z.pow_le_mono_r; lia). lia. }
  simpl "++". rewrite hex_fixed_pad by lia. f_equal. lia.
Qed.

Lemma list_pair_ind {A : Type} (P : list A → Prop) :
  P [] → (∀ a, P [a]) → (∀ a b l, P l → P (a :: b :: l)) → ∀ l, P l.
Proof.
  intros Hnil Hone Hstep l.
  assert (P l ∧ ∀ a, P (a :: l)) as [Hl _]; [|exact Hl].
  induction l as [|b l [IH1 IH2]]; split; auto.
Qed.

Lemma hex_pairs_groups (hex_str : str) :
  hex_pairs hex_str = map (λ group, lit "0x" ++ group) (groups_of_two hex_str).
Proof.
  induction hex_str as [|a|a b hex_str IH] using list_pair_ind; [reflexivity..|].
  unfold hex_pairs in *. simpl length.
  replace (Datatypes.S (Datatypes.S (length hex_str)) + 1)%nat
    with (Datatypes.S (Datatypes.S (length hex_str + 1))) by lia.
  simpl Nat.div2. simpl seq. simpl groups_of_two. rewrite !map_cons.
  f_equal. rewrite <- IH, <- seq_shift, map_map. apply map_ext. intros k.
  replace (2 * Datatypes.S k)%nat with (Datatypes.S (Datatypes.S (2 * k))) by lia.
  reflexivity.
Qed.

Lemma hex_with_padding_groups (num width : Z) :
  1 ≤ width →
  0 ≤ num < 16 ^ width →
  hex_with_padding num width
  = Return (join (lit ", ")
              (map (λ group, lit "0x" ++ group)
                 (groups_of_two (hex_fixed (Z.to_nat width) num)))).
Proof.
  intros Hwidth Hnum. unfold hex_with_padding.
  rewrite format_0x_fixed by assumption. simpl. by rewrite hex_pairs_groups.
Qed.

Lemma ceil_quarter_count (max_width : Z) : ceil_quarter max_width = hex_digit_count max_width.
Proof. unfold ceil_quarter, hex_digit_count. Z.div_mod_to_equations. lia. Qed.

Lemma hex_digit_count_fits (max_width : Z) :
  1 ≤ max_width →
  1 ≤ hex_digit_count max_width ∧ 2 ^ max_width ≤ 16 ^ hex_digit_count max_width.
Proof.
  intros Hwidth. unfold hex_digit_count.
  assert (max_width ≤ 4 * ((max_width + 3) / 4)) as Hle by (Z.div_mod_to_equations; lia).
  split; [Z.div_mod_to_equations; lia|].
  change 16 with (2 ^ 4). rewrite <- Z.pow_mul_r by (Z.div_mod_to_equations; lia).
  apply Z.pow_le_mono_r; lia.
Qed.

Lemma encode_line_encoded (max_width : Z) (row : list Z) :
  1 ≤ max_width →
  length row = Z.to_nat max_width →
  encode_line max_width row = Return (encoded_line max_width row).
Proof.
  intros Hwidth Hlen. unfold encode_line, row_hex, encoded_line, encoded_hex.
  rewrite join_bits, join_comment, int_base2_bits; cycle 1.
  { destruct row; [simpl in Hlen; lia | discriminate]. }
  simpl. rewrite ceil_quarter_count.
  destruct (hex_digit_count_fits max_width Hwidth) as [Hcount Hfits].
  rewrite hex_with_padding_groups; [reflexivity|exact Hcount|].
  pose proof (bits_value_range (map pixel_on row)) as Hrange.
  rewrite length_map, Hlen, Z2Nat.id in Hrange by lia. lia.
Qed.

Lemma encode_line_nil (max_width : Z) : encode_line max_width [] = Raise ValueError.
Proof. reflexivity. Qed.

Lemma mapM_outcome_all {A B : Type} (f : A → outcome B) (g : A → B) (l : list A) :
  Forall (λ x, f x = Return (g x)) l → mapM_outcome f l = Return (map g l).
Proof.
  induction 1 as [|x l Hx _ IH]; simpl; [reflexivity|]. rewrite Hx. simpl. rewrite IH. reflexivity.
Qed.

Lemma mapM_outcome_returned {A B : Type} (f : A → outcome B) (l : list A) :
  ∀ ys, mapM_outcome f l = Return ys → Forall2 (λ x y, f x = Return y) l ys.
Proof.
  induction l as [|x l IH]; intros ys Hrun; simpl in Hrun.
  - injection Hrun as <-. constructor.
  - destruct (f x) as [y| |] eqn:Hx; try discriminate. simpl in Hrun.
    destruct (mapM_outcome f l) as [ys'| |]; try discriminate.
    injection Hrun as <-. constructor; [exact Hx|]. by apply IH.
Qed.

Lemma np_zeros_tabulate (h w : Z) :
  0 ≤ h → 0 ≤ w →
  np_zeros h w = Return (tabulate (Z.to_nat h) (Z.to_nat w) (λ _ _, 0)).
Proof.
  intros Hh Hw. unfold np_zeros.
  destruct (Z.ltb_spec h 0); [lia|]. destruct (Z.ltb_spec w 0); [lia|]. reflexivity.
Qed.

Lemma tabulate_wf {A : Type} (h w : nat) (f : nat → nat → A) : ndarray_wf (tabulate h w f).
Proof.
  split; simpl.
  - by rewrite length_map, length_seq.
  - apply Forall_forall. intros row Hrow. apply list_elem_of_fmap in Hrow as (i & -> & _).
    by rewrite length_map, length_seq.
Qed.

Lemma lookup_tabulate {A : Type} (h w : nat) (f : nat → nat → A) (i : nat) :
  (i < h)%nat → cells (tabulate h w f) !! i = Some (map (f i) (seq 0 w)).
Proof.
  intros Hi. simpl.
  change (map (λ i, map (f i) (seq 0 w)) (seq 0 h))
    with ((λ i, map (f i) (seq 0 w)) <$> seq 0 h).
  rewrite list_lookup_fmap, lookup_seq_lt by exact Hi. reflexivity.
Qed.

(** The assignment keeps the shape of the target. *)
Lemma assign_corner_wf (new arr new_array : ndarray Z) :
  ndarray_wf new →
  assign_corner new arr = Return new_array →
  ndarray_wf new_array ∧ nrows new_array = nrows new ∧ ncols new_array = ncols new.
Proof.
  intros [Hrows Hcols] Hrun. unfold assign_corner in Hrun.
  destruct (_ && _); [|discriminate]. injection Hrun as <-. simpl.
  split; [|split; reflexivity]. split; simpl.
  - by rewrite length_imap.
  - apply Forall_forall. intros row Hrow.
    apply list_elem_of_lookup in Hrow as [i Hi].
    rewrite list_lookup_imap in Hi.
    destruct (cells new !! i) as [row0|] eqn:Hrow0; [|discriminate].
    injection Hi as <-. rewrite length_imap.
    rewrite Forall_lookup in Hcols. exact (Hcols _ _ Hrow0).
Qed.

(** Over zeros of its own shape, an array is copied as it is. *)
Lemma assign_corner_same (rows : list (list Z)) (w : nat) :
  Forall (λ row, length row = w) rows →
  assign_corner (tabulate (length rows) w (λ _ _, 0)) (mk_ndarray (length rows) w rows)
  = Return (mk_ndarray (length rows) w rows).
Proof.
  intros Hrows. unfold assign_corner, broadcast_ok. simpl nrows. simpl ncols.
  rewrite !Nat.leb_refl. simpl. do 2 f_equal.
  apply list_eq. intros i. rewrite list_lookup_imap.
  destruct (decide (i < length rows)%nat) as [Hi|Hi].
  - pose proof (lookup_tabulate (length rows) w (λ _ _ : nat, 0) i Hi) as Hzero.
    simpl in Hzero. rewrite Hzero. simpl.
    destruct (lookup_lt_is_Some_2 rows i Hi) as [row Hrow]. rewrite Hrow. f_equal.
    assert (length row = w) as Hlen by (rewrite Forall_lookup in Hrows; eauto).
    apply list_eq. intros j. rewrite list_lookup_imap.
    change (map (λ _ : nat, 0) (seq 0 w)) with ((λ _ : nat, 0) <$> seq 0 w).
    rewrite list_lookup_fmap.
    destruct (decide (j < w)%nat) as [Hj|Hj].
    + rewrite lookup_seq_lt by exact Hj. simpl.
      destruct (Nat.ltb_spec i (length rows)); [|lia].
      destruct (Nat.ltb_spec j w); [|lia]. simpl.
      destruct (lookup_lt_is_Some_2 row j) as [x Hx]; [lia|]. rewrite Hx. reflexivity.
    + rewrite lookup_seq_ge by lia. simpl. symmetry. apply lookup_ge_None. lia.
  - rewrite (lookup_ge_None_2 rows) by lia.
    rewrite lookup_ge_None_2; [reflexivity|].
    destruct (tabulate_wf (length rows) w (λ _ _ : nat, 0)) as [Hlen _].
    simpl in Hlen. simpl. lia.
Qed.

(** *** Reading a line back *)

Lemma hex_fixed_nibbles (w : nat) : ∀ n, hex_fixed w n = map hex_digit (nibbles w n).
Proof.
  induction w as [|w IH]; intros n; simpl; [reflexivity|].
  by rewrite map_app, IH.
Qed.

Lemma nibbles_range (w : nat) : ∀ n, Forall (λ d, 0 ≤ d < 16) (nibbles w n).
Proof.
  induction w as [|w IH]; intros n; simpl; [constructor|].
  apply Forall_app. split; [apply IH|]. constructor; [|constructor].
  apply Z.mod_pos_bound. lia.
Qed.

Lemma hex_value_digit (d : Z) :
  0 ≤ d < 16 → hex_value (hex_digit d) = Some d ∧ Ascii.eqb (hex_digit d) "," = false.
Proof.
  intros Hd.
  assert (d = 0 ∨ d = 1 ∨ d = 2 ∨ d = 3 ∨ d = 4 ∨ d = 5 ∨ d = 6 ∨ d = 7 ∨ d = 8 ∨ d = 9
          ∨ d = 10 ∨ d = 11 ∨ d = 12 ∨ d = 13 ∨ d = 14 ∨ d = 15) as Hcases by lia.
  repeat (destruct Hcases as [->|Hcases]; [split; reflexivity|]).
  subst d. split; reflexivity.
Qed.

Lemma read_digits (ds : list Z) (rest : str) :
  Forall (λ d, 0 ≤ d < 16) ds →
  read_line InDigits (map hex_digit ds ++ "," %char :: rest)
  = match read_line AfterComma rest with
    | Some (bits, com) => Some (concat (map nibble_bits ds) ++ bits, com)
    | None => None
    end.
Proof.
  induction 1 as [|d ds Hd _ IH]; simpl.
  - destruct (read_line AfterComma rest) as [[bits com]|]; reflexivity.
  - destruct (hex_value_digit d Hd) as [-> ->]. rewrite IH.
    destruct (read_line AfterComma rest) as [[bits com]|]; [|reflexivity].
    simpl. by rewrite <- ?app_assoc.
Qed.

Lemma read_groups (groups : list (list Z)) (com : str) :
  groups ≠ [] →
  Forall (Forall (λ d, 0 ≤ d < 16)) groups →
  read_line AtLiteral
    (join (lit ", ") (map (λ group, lit "0x" ++ map hex_digit group) groups)
     ++ lit "," ++ [tab] ++ lit " // " ++ com)
  = Some (concat (map nibble_bits (concat groups)), com).
Proof.
  intros Hne Hgroups. induction Hgroups as [|group groups Hgroup Hgroups IH]; [congruence|].
  destruct groups as [|group' groups].
  - simpl. rewrite read_digits by exact Hgroup.
    simpl. by rewrite !app_nil_r.
  - change (join (lit ", ") (map (λ group, lit "0x" ++ map hex_digit group)
                               (group :: group' :: groups)))
      with ((lit "0x" ++ map hex_digit group) ++ lit ", "
            ++ join (lit ", ") (map (λ group, lit "0x" ++ map hex_digit group)
                                  (group' :: groups))).
    rewrite <- !app_assoc.
    cbn [read_line lit list_ascii_of_string Ascii.eqb Bool.eqb app].
    rewrite read_digits by exact Hgroup.
    cbn [read_line Ascii.eqb Bool.eqb].
    match goal with
    | |- context [read_line AtLiteral ?rest] =>
        replace (read_line AtLiteral rest)
          with (Some (concat (map nibble_bits (concat (group' :: groups))), com))
          by (symmetry; apply IH; discriminate)
    end.
    cbn [concat]. by rewrite !map_app, !concat_app.
Qed.

Lemma groups_of_two_map {A B : Type} (f : A → B) (s : list A) :
  groups_of_two (map f s) = map (map f) (groups_of_two s).
Proof.
  induction s as [|a|a b s IH] using list_pair_ind; [reflexivity..|].
  simpl. by rewrite IH.
Qed.

Lemma concat_groups_of_two {A : Type} (s : list A) : concat (groups_of_two s) = s.
Proof.
  induction s as [|a|a b s IH] using list_pair_ind; [reflexivity..|].
  simpl. by rewrite IH.
Qed.

Lemma low_bits_zero (k : nat) : low_bits k 0 = replicate k false.
Proof.
  induction k as [|k IH]; [reflexivity|].
  simpl low_bits. change (0 / 2) with 0. rewrite IH.
  symmetry. apply replicate_cons_app.
Qed.

Lemma low_bits_value (bits : list bool) (p : nat) :
  low_bits (p + length bits) (bits_value bits) = replicate p false ++ bits.
Proof.
  induction bits as [|b bits IH] using rev_ind.
  - rewrite Nat.add_0_r, app_nil_r. apply low_bits_zero.
  - rewrite length_app, bits_value_snoc. simpl length.
    replace (p + (length bits + 1))%nat with (Datatypes.S (p + length bits)) by lia.
    simpl low_bits.
    replace ((2 * bits_value bits + (if b then 1 else 0)) / 2) with (bits_value bits)
      by (destruct b; Z.div_mod_to_equations; lia).
    rewrite IH, <- app_assoc. do 2 f_equal.
    destruct b.
    + rewrite Z.add_comm, Z.odd_add_mul_2. reflexivity.
    + rewrite Z.add_0_r, Z.odd_mul. reflexivity.
Qed.

Lemma low_bits_app (a b : nat) : ∀ v, low_bits (a + b) v = low_bits a (v / 2 ^ Z.of_nat b) ++ low_bits b v.
Proof.
  induction b as [|b IH]; intros v.
  - rewrite Nat.add_0_r, Z.div_1_r, app_nil_r. reflexivity.
  - replace (a + Datatypes.S b)%nat with (Datatypes.S (a + b)) by lia.
    simpl low_bits. rewrite IH, <- app_assoc. do 2 f_equal.
    rewrite Nat2Z.inj_succ, Z.pow_succ_r, Z.div_div by lia. reflexivity.
Qed.

Lemma low_bits_mod (k : nat) : ∀ v, low_bits k (v mod 2 ^ Z.of_nat k) = low_bits k v.
Proof.
  induction k as [|k IH]; intros v; [reflexivity|].
  simpl low_bits. rewrite Nat2Z.inj_succ, Z.pow_succ_r by lia.
  rewrite Z.rem_mul_r by lia.
  replace ((v mod 2 + 2 * ((v / 2) mod 2 ^ Z.of_nat k)) / 2) with ((v / 2) mod 2 ^ Z.of_nat k)
    by (pose proof (Z.mod_pos_bound v 2); Z.div_mod_to_equations; lia).
  rewrite IH. f_equal. f_equal.
  rewrite Z.odd_add_mul_2, Zmod_odd. destruct (Z.odd v); reflexivity.
Qed.

Lemma nibbles_bits (w : nat) :
  ∀ n, concat (map nibble_bits (nibbles w n)) = low_bits (4 * w) n.
Proof.
  induction w as [|w IH]; intros n; [reflexivity|].
  simpl nibbles. rewrite map_app, concat_app, IH.
  change (concat (map nibble_bits [n mod 16])) with (nibble_bits (n mod 16) ++ []).
  rewrite app_nil_r.
  replace (4 * Datatypes.S w)%nat with (4 * w + 4)%nat by lia.
  rewrite low_bits_app. f_equal. unfold nibble_bits. apply (low_bits_mod 4).
Qed.

Lemma decode_encoded_line (max_width : Z) (row : list Z) :
  1 ≤ max_width →
  length row = Z.to_nat max_width →
  decode_line max_width (encoded_line max_width row)
  = Some (map bit_char (map pixel_on row), map bit_char (map pixel_on row)).
Proof.
  intros Hwidth Hlen. unfold decode_line, encoded_line, encoded_hex.
  rewrite hex_fixed_nibbles, groups_of_two_map, map_map.
  destruct (hex_digit_count_fits max_width Hwidth) as [Hcount Hfits].
  set (count := Z.to_nat (hex_digit_count max_width)).
  set (bits := map pixel_on row).
  assert (length bits = Z.to_nat max_width) as Hbits by (unfold bits; by rewrite length_map).
  assert (Z.to_nat max_width ≤ 4 * count)%nat as Hroom.
  { unfold count, hex_digit_count in *. Z.div_mod_to_equations. lia. }
  rewrite read_groups; cycle 1.
  { destruct count as [|count'] eqn:Hc; [lia|]. simpl nibbles.
    destruct (nibbles count' (bits_value bits / 16)) as [|d [|d' ds]]; discriminate. }
  { apply Forall_concat. rewrite concat_groups_of_two. apply nibbles_range. }
  rewrite concat_groups_of_two, nibbles_bits.
  replace (4 * count)%nat with ((4 * count - length bits) + length bits)%nat by lia.
  rewrite low_bits_value, length_app, length_replicate, Hbits.
  replace (4 * count - Z.to_nat max_width + Z.to_nat max_width - Z.to_nat max_width)%nat
    with (4 * count - Z.to_nat max_width)%nat by lia.
  rewrite take_app_length', drop_app_length' by (symmetry; apply length_replicate).
  assert (∀ p, forallb negb (replicate p false) = true) as ->; [|reflexivity].
  intros p. induction p; [reflexivity|assumption].
Qed.

Lemma to_bitfield_result_exact (rows : list (list Z)) (max_width : Z) :
  1 ≤ max_width →
  Forall (λ row, length row = Z.to_nat max_width) rows →
  to_bitfield_result (mk_ndarray (length rows) (Z.to_nat max_width) rows)
    (Z.of_nat (length rows)) max_width
  = Return (map (encoded_line max_width) rows).
Proof.
  intros Hwidth Hrows. rewrite to_bitfield_result_lines, np_zeros_tabulate by lia.
  simpl. rewrite Nat2Z.id, assign_corner_same by exact Hrows. simpl.
  apply mapM_outcome_all. eapply Forall_impl; [exact Hrows|].
  intros row Hrow. by apply encode_line_encoded.
Qed.

Lemma to_bitfield_result_returned (arr : ndarray Z) (max_height max_width : Z)
    (lines : list str) :
  to_bitfield_result arr max_height max_width = Return lines →
  length lines = Z.to_nat max_height
  ∧ ∀ line, line ∈ lines →
      1 ≤ max_width
      ∧ ∃ row, length row = Z.to_nat max_width ∧ line = encoded_line max_width row.
Proof.
  intros Hrun. rewrite to_bitfield_result_lines in Hrun.
  destruct (np_zeros max_height max_width) as [zeros| |] eqn:Hzeros; try discriminate.
  simpl in Hrun.
  destruct (assign_corner zeros arr) as [new_array| |] eqn:Hnew; try discriminate.
  simpl in Hrun. apply mapM_outcome_returned in Hrun.
  unfold np_zeros in Hzeros. destruct (_ || _); [discriminate|]. injection Hzeros as <-.
  destruct (assign_corner_wf _ _ _ (tabulate_wf _ _ _) Hnew) as ([Hrows Hcols] & Hh & Hw).
  simpl in Hh, Hw. split.
  - rewrite <- (Forall2_length _ _ _ Hrun). congruence.
  - intros line Hline. apply list_elem_of_lookup in Hline as [i Hi].
    destruct (Forall2_lookup_r _ _ _ _ _ Hrun Hi) as (row & Hrow & Hencode).
    assert (length row = Z.to_nat max_width) as Hlen.
    { rewrite Forall_lookup in Hcols. rewrite (Hcols _ _ Hrow). exact Hw. }
    destruct (Z_lt_le_dec max_width 1) as [Hsmall|Hwidth].
    + destruct row; [|simpl in Hlen; lia]. discriminate Hencode.
    + split; [exact Hwidth|]. exists row. split; [exact Hlen|].
      rewrite encode_line_encoded in Hencode by assumption. congruence.
Qed.

Lemma groups_of_two_odd {A : Type} (s : list A) (d : A) :
  Nat.even (length s) = true →
  groups_of_two (s ++ [d]) = groups_of_two s ++ [[d]]
  ∧ Forall (λ group, length group = 2%nat) (groups_of_two s)
  ∧ length (groups_of_two s) = Nat.div2 (length s).
Proof.
  induction s as [|a|a b s IH] using list_pair_ind; intros Heven.
  - repeat split. constructor.
  - discriminate Heven.
  - destruct (IH Heven) as (Hsplit & Hpairs & Hcount). simpl.
    rewrite Hsplit, Hcount. repeat split. by constructor.
Qed.

(** C3, as the spec has it, fails twice. With 12 pixels to a row the three
    hexadecimal digits make a group of two and a last group of one, so the
    last literal is [0xf] and not of the form [0xHH]; and a row of no pixel
    at all is not encoded: [int('', 2)] raises [ValueError]. *)
Lemma C3_last_literal_of_one_digit :
  to_bitfield_result (mk_ndarray 1 12 [replicate 12 255]) 1 12
  = Return [lit "0xff, 0xf," ++ [tab] ++ lit " // 111111111111"]
  ∧ to_bitfield_result (mk_ndarray 1 0 [[]]) 1 0 = Raise ValueError.
Proof. split; vm_compute; reflexivity. Qed.

(** C3, amended: for rows of [max_width >= 1] pixels, each line of
    [to_bitfield] is the encoding of its row in the words of the spec
    ([encoded_line]): the row read as a bit string, leftmost pixel first, on
    as 1; its value written with exactly [ceil(max_width / 4)] hexadecimal
    digits, zeros on the left; the digits cut from the left into groups of
    two, a last digit left alone making a group of one; each group written
    after [0x], the groups joined by a comma and a blank; then the comment,
    [1] for on and [0] for off. *)
Theorem C3_row_encoding (rows : list (list Z)) (max_width : Z) :
  1 ≤ max_width →
  Forall (λ row, length row = Z.to_nat max_width) rows →
  to_bitfield_result (mk_ndarray (length rows) (Z.to_nat max_width) rows)
    (Z.of_nat (length rows)) max_width
  = Return (map (encoded_line max_width) rows)
  ∧ Forall (λ row,
      length (hex_fixed (Z.to_nat (hex_digit_count max_width))
                (bits_value (map pixel_on row)))
      = Z.to_nat (hex_digit_count max_width)) rows.
Proof.
  intros Hwidth Hrows. split; [by apply to_bitfield_result_exact|].
  apply Forall_forall. intros row _. apply length_hex_fixed.
Qed.

(** Example 2 of the spec, through C3: eight pixels, the left four on. *)
Lemma C3_row_encoding_example :
  to_bitfield_result (mk_ndarray 1 8 [[255; 255; 255; 255; 0; 0; 0; 0]]) 1 8
  = Return [lit "0xf0," ++ [tab] ++ lit " // 11110000"].
Proof.
  apply (C3_row_encoding [[255; 255; 255; 255; 0; 0; 0; 0]] 8); [lia|].
  repeat constructor.
Defined.

(** C4 (round trip): every line [to_bitfield] writes decodes to one bit
    string twice, once from its hexadecimal literals, four bits to a digit
    and the zero padding bits on the left dropped, and once from its
    comment; and there is one line to a row. *)
Theorem C4_hex_and_comment_agree (arr : ndarray Z) (max_height max_width : Z)
    (lines : list str) :
  to_bitfield_result arr max_height max_width = Return lines →
  length lines = Z.to_nat max_height
  ∧ ∀ line, line ∈ lines →
      ∃ bits : str,
        length bits = Z.to_nat max_width
        ∧ decode_line max_width line = Some (bits, bits).
Proof.
  intros Hrun. destruct (to_bitfield_result_returned _ _ _ _ Hrun) as [Hcount Hlines].
  split; [exact Hcount|]. intros line Hline.
  destruct (Hlines line Hline) as (Hwidth & row & Hlen & ->).
  exists (map bit_char (map pixel_on row)). split.
  - by rewrite !length_map.
  - by apply decode_encoded_line.
Qed.

(** Example 3 of the spec, through C4: six pixels to a row make two digits
    and two padding bits. *)
Lemma C4_hex_and_comment_example :
  to_bitfield_result (mk_ndarray 2 6 [[0; 255; 255; 0; 0; 255]; [255; 0; 0; 0; 0; 0]]) 2 6
  = Return [lit "0x19," ++ [tab] ++ lit " // 011001"; lit "0x20," ++ [tab] ++ lit " // 100000"]
  ∧ length [lit "0x19," ++ [tab] ++ lit " // 011001"; lit "0x20," ++ [tab] ++ lit " // 100000"]
    = Z.to_nat 2
  ∧ ∀ line,
      line ∈ [lit "0x19," ++ [tab] ++ lit " // 011001"; lit "0x20," ++ [tab] ++ lit " // 100000"] →
      ∃ bits : str, length bits = Z.to_nat 6 ∧ decode_line 6 line = Some (bits, bits).
Proof.
  split; [vm_compute; reflexivity|].
  apply (C4_hex_and_comment_agree
           (mk_ndarray 2 6 [[0; 255; 255; 0; 0; 255]; [255; 0; 0; 0; 0; 0]]) 2 6).
  vm_compute. reflexivity.
Defined.

(** C10 (odd digit count): when [ceil(max_width / 4)] is odd, the literals
    of a row of [max_width] pixels are [floor(ceil(max_width / 4) / 2)]
    literals of two digits and then one literal of one digit, the lowest
    four bits of the value of the row; that is
    [ceil(ceil(max_width / 4) / 2)] literals in all. *)
Theorem C10_odd_digit_count (row : list Z) (max_width : Z) :
  Z.of_nat (length row) = max_width →
  Z.odd (hex_digit_count max_width) = true →
  ∃ pairs : list str,
    row_hex (ceil_quarter max_width) (map (λ c : Z, if c =? 0 then 0 else 1) row)
    = Return (join (lit ", ")
                (map (λ pair, lit "0x" ++ pair) pairs
                 ++ [lit "0x" ++ [hex_digit (bits_value (map pixel_on row) mod 16)]]))
    ∧ Forall (λ pair, length pair = 2%nat) pairs
    ∧ Z.of_nat (length pairs) = hex_digit_count max_width / 2
    ∧ Z.of_nat (length (pairs ++ [[hex_digit (bits_value (map pixel_on row) mod 16)]]))
      = (hex_digit_count max_width + 1) / 2
    ∧ concat pairs ++ [hex_digit (bits_value (map pixel_on row) mod 16)]
      = hex_fixed (Z.to_nat (hex_digit_count max_width)) (bits_value (map pixel_on row)).
Proof.
  intros Hlen Hodd.
  assert (1 ≤ max_width) as Hwidth.
  { destruct (Z_lt_le_dec max_width 1); [|assumption].
    assert (max_width = 0) as -> by lia. discriminate Hodd. }
  destruct (hex_digit_count_fits max_width Hwidth) as [Hcount Hfits].
  set (v := bits_value (map pixel_on row)).
  destruct (Z.to_nat (hex_digit_count max_width)) as [|count] eqn:Hc; [lia|].
  assert (∃ half : nat, count = (2 * half)%nat) as [half Hhalf].
  { apply Z.odd_spec in Hodd as [m Hm]. exists (Z.to_nat m). lia. }
  assert (Nat.even count = true) as Heven.
  { apply Nat.even_spec. exists half. exact Hhalf. }
  destruct (groups_of_two_odd (hex_fixed count (v / 16)) (hex_digit (v mod 16)))
    as (Hsplit & Hpairs & Hnumber).
  { by rewrite length_hex_fixed. }
  rewrite length_hex_fixed in Hnumber.
  exists (groups_of_two (hex_fixed count (v / 16))).
  split; [|split; [exact Hpairs|split; [|split]]].
  - unfold row_hex. rewrite join_bits, int_base2_bits; cycle 1.
    { destruct row; [simpl in Hlen; lia | discriminate]. }
    simpl. rewrite ceil_quarter_count, hex_with_padding_groups; cycle 1.
    { exact Hcount. }
    { pose proof (bits_value_range (map pixel_on row)) as Hrange.
      rewrite length_map, Hlen in Hrange. fold v in Hrange. fold v. lia. }
    fold v. rewrite Hc, hex_fixed_snoc, Hsplit, map_app. reflexivity.
  - unfold str. rewrite Hnumber, Hhalf, Nat.div2_double. Z.div_mod_to_equations. lia.
  - unfold str. rewrite length_app, Hnumber, Hhalf, Nat.div2_double. simpl length.
    Z.div_mod_to_equations. lia.
  - rewrite concat_groups_of_two. reflexivity.
Qed.

(** Twelve pixels to a row: three digits, so one literal of two digits and
    one of one digit. *)
Lemma C10_odd_digit_count_example :
  ∃ pairs : list str,
    row_hex (ceil_quarter 12) (map (λ c : Z, if c =? 0 then 0 else 1) (replicate 12 255))
    = Return (join (lit ", ")
                (map (λ pair, lit "0x" ++ pair) pairs
                 ++ [lit "0x" ++ [hex_digit (bits_value (map pixel_on (replicate 12 255)) mod 16)]]))
    ∧ Forall (λ pair, length pair = 2%nat) pairs
    ∧ Z.of_nat (length pairs) = hex_digit_count 12 / 2
    ∧ Z.of_nat (length (pairs ++ [[hex_digit (bits_value (map pixel_on (replicate 12 255)) mod 16)]]))
      = (hex_digit_count 12 + 1) / 2
    ∧ concat pairs ++ [hex_digit (bits_value (map pixel_on (replicate 12 255)) mod 16)]
      = hex_fixed (Z.to_nat (hex_digit_count 12)) (bits_value (map pixel_on (replicate 12 255))).
Proof.
  apply (C10_odd_digit_count (replicate 12 255) 12); reflexivity.
Defined.

(** ** The whole run *)

Lemma near_blank (mask : list bool) (index : nat) :
  Forall (λ b, b = false) mask → near mask index = false.
Proof.
  intros Hblank. unfold near.
  assert (∀ k, default false (mask !! k) = false) as Hoff.
  { intros k. destruct (mask !! k) as [b|] eqn:Hk; [|reflexivity].
    rewrite Forall_lookup in Hblank. exact (Hblank _ _ Hk). }
  by rewrite !Hoff.
Qed.

Lemma count_blank (l : list bool) : Forall (λ b, b = false) l → count l true = 0.
Proof.
  intros Hblank. unfold count.
  induction Hblank as [|b l -> _ IH]; [reflexivity|].
  rewrite filter_cons_False by discriminate. exact IH.
Qed.

Lemma shared_mask_blank (n : nat) (masks : list (list bool)) :
  Forall (λ mask, length mask = n) masks →
  Forall (Forall (λ b, b = false)) masks →
  count (shared_mask n masks) true = 0.
Proof.
  intros Hlen Hblank. apply count_blank, Forall_lookup. intros j b Hj.
  rewrite lookup_shared_mask in Hj; [|exact Hlen|].
  - injection Hj as <-. apply not_true_is_false. intros Hnear.
    apply existsb_exists in Hnear as (mask & Hin & Hnear).
    rewrite Forall_forall in Hblank. apply list_elem_of_In in Hin.
    rewrite near_blank in Hnear by auto. discriminate.
  - apply lookup_lt_Some in Hj. by rewrite length_shared_mask in Hj.
Qed.

(** The rows a mask keeps: as many as the mask has flags set, each a row of
    the array. *)
Lemma mask_rows_kept {A : Type} (arr : ndarray A) (mask : list bool) :
  ndarray_wf arr →
  length mask = nrows arr →
  ∃ kept,
    mask_rows arr mask = Return (mk_ndarray (length kept) (ncols arr) kept)
    ∧ Z.of_nat (length kept) = count mask true
    ∧ Forall (λ row, length row = ncols arr) kept.
Proof.
  intros [Hrows Hcols] Hmask. unfold mask_rows.
  destruct (Nat.eqb_spec (length mask) (nrows arr)); [|lia].
  eexists. split; [reflexivity|].
  assert (length mask = length (cells arr)) as Hsame by lia.
  clear Hrows Hmask e. revert Hcols Hsame. generalize (cells arr) as rows. unfold count.
  induction mask as [|flag mask IH]; intros rows Hcols Hsame.
  - split; [reflexivity|constructor].
  - destruct rows as [|row rows]; [discriminate|].
    apply Forall_cons in Hcols as [Hrow Hcols]. injection Hsame as Hsame.
    destruct (IH rows Hcols Hsame) as [Hnumber Hkept].
    destruct flag.
    + rewrite filter_cons_True by reflexivity. simpl. split.
      * rewrite !Nat2Z.inj_succ. f_equal. exact Hnumber.
      * constructor; [exact Hrow|exact Hkept].
    + rewrite filter_cons_False by discriminate. simpl. split; [exact Hnumber|exact Hkept].
Qed.

Lemma to_bitfield_returns (rows : list (list Z)) (max_height max_width : Z) :
  max_height = Z.of_nat (length rows) →
  0 ≤ max_width →
  (max_width = 0 → rows = []) →
  Forall (λ row, length row = Z.to_nat max_width) rows →
  ∃ text,
    to_bitfield (mk_ndarray (length rows) (Z.to_nat max_width) rows) max_height max_width
    = Return text.
Proof.
  intros -> Hwidth Hnone Hrows. unfold to_bitfield.
  destruct (Z.eq_dec max_width 0) as [->|Hpos].
  - rewrite (Hnone eq_refl). eexists. reflexivity.
  - rewrite to_bitfield_result_exact by (assumption || lia). eexists. reflexivity.
Qed.

Section Pipeline.
Context {PIL : FontEngine}.

Lemma get_max_letter_dimensions_nonneg (base_string : list codepoint) (font_inst : ImageFont) :
  0 ≤ (get_max_letter_dimensions base_string font_inst).1
  ∧ 0 ≤ (get_max_letter_dimensions base_string font_inst).2.
Proof.
  unfold get_max_letter_dimensions. rewrite max_letter_loop. simpl.
  split.
  - pose proof (running_max_bounds
                  (map (λ char, (get_letter_dimensions [char] font_inst).1) base_string) 0)
      as [Hwidth _]. exact Hwidth.
  - pose proof (running_max_bounds
                  (map (λ char, (get_letter_dimensions [char] font_inst).2) base_string) 0)
      as [Hheight _]. lia.
Qed.

Lemma char_to_pixels_rastered (text : list codepoint) (font : ImageFont) (width height : Z) :
  0 ≤ width → 0 ≤ height →
  ∃ glyph, char_to_pixels text font width height = Return glyph
           ∧ rastered_on width height glyph.
Proof.
  intros Hwidth Hheight. unfold char_to_pixels.
  destruct (Z.ltb_spec width 0); [lia|]. destruct (Z.ltb_spec height 0); [lia|].
  simpl. eexists. split; [reflexivity|].
  unfold rastered_on, any_axis1, ndarray_wf, np_where, tabulate. simpl. repeat split.
  - by rewrite !length_map, length_seq.
  - apply Forall_forall. intros row Hrow.
    apply list_elem_of_fmap in Hrow as (row0 & -> & Hrow0).
    apply list_elem_of_fmap in Hrow0 as (i & -> & _).
    by rewrite !length_map, length_seq.
  - by rewrite !length_map, length_seq.
  - intros ->. apply Forall_forall. intros b Hb.
    apply list_elem_of_fmap in Hb as (row & -> & Hrow).
    apply list_elem_of_fmap in Hrow as (row0 & -> & Hrow0).
    apply list_elem_of_fmap in Hrow0 as (i & -> & _). reflexivity.
Qed.

Lemma raster_loop (font_inst : ImageFont) (width height : Z) (letters : list codepoint) :
  0 ≤ width → 0 ≤ height →
  ∃ rastered,
    mapM_outcome (λ char, char_to_pixels [char] font_inst width height) letters
    = Return rastered
    ∧ length rastered = length letters
    ∧ Forall (rastered_on width height) rastered.
Proof.
  intros Hwidth Hheight. induction letters as [|char letters (rastered & Hrun & Hlen & Hall)].
  - exists []. repeat split. constructor.
  - destruct (char_to_pixels_rastered [char] font_inst width height Hwidth Hheight)
      as (glyph & Hglyph & Hshape).
    exists (glyph :: rastered). simpl. rewrite Hglyph. simpl. rewrite Hrun. simpl.
    repeat split; [lia|]. by constructor.
Qed.

(** What the raster phase hands to the writing phase. *)
Lemma raster_returned (font_path : str) (all_letters : list codepoint) (font_size : option Z)
    (max_width actual_height : Z) (letters : list (ndarray Z)) (total_mask : list bool) :
  font_to_pixels_raster font_path all_letters font_size
  = Return (max_width, letters, total_mask, actual_height) →
  all_letters ≠ []
  ∧ 0 ≤ max_width
  ∧ actual_height = count total_mask true
  ∧ (max_width = 0 → actual_height = 0)
  ∧ Forall (λ char_arr, ndarray_wf char_arr
                        ∧ nrows char_arr = length total_mask
                        ∧ ncols char_arr = Z.to_nat max_width) letters.
Proof.
  unfold font_to_pixels_raster. destruct font_size as [font_size|]; [|discriminate].
  simpl.
  pose proof (get_max_letter_dimensions_nonneg all_letters (truetype font_path font_size))
    as [Hwidth Hheight].
  destruct (get_max_letter_dimensions all_letters (truetype font_path font_size))
    as [width height]. simpl in Hwidth, Hheight.
  destruct (raster_loop (truetype font_path font_size) width height all_letters Hwidth Hheight)
    as (rastered & -> & Hlen & Hall). simpl.
  destruct all_letters as [|char all_letters'].
  { destruct rastered; [|discriminate Hlen]. discriminate. }
  assert (Forall (λ mask, length mask = Z.to_nat height) rastered.*2) as Hmasks.
  { apply Forall_fmap. eapply Forall_impl; [exact Hall|]. intros glyph Hglyph. apply Hglyph. }
  rewrite (determine_final_height_shared (Z.to_nat height)); [|destruct rastered; discriminate|exact Hmasks].
  simpl. intros Hrun. injection Hrun as <- <- <- <-.
  split; [discriminate|]. split; [exact Hwidth|]. split; [reflexivity|]. split.
  - intros ->. apply shared_mask_blank; [exact Hmasks|].
    apply Forall_fmap. eapply Forall_impl; [exact Hall|]. intros glyph Hglyph.
    by apply Hglyph.
  - apply Forall_fmap. eapply Forall_impl; [exact Hall|].
    intros glyph (Hwf & Hrows & Hcols & _). rewrite length_shared_mask. simpl. auto.
Qed.

(** Once the raster phase has returned, the writing loop runs to its end. *)
Lemma font_to_pixels_blocks_return (letters : list (ndarray Z)) (total_mask : list bool)
    (actual_height max_width : Z) :
  0 ≤ max_width →
  actual_height = count total_mask true →
  (max_width = 0 → actual_height = 0) →
  Forall (λ char_arr, ndarray_wf char_arr
                      ∧ nrows char_arr = length total_mask
                      ∧ ncols char_arr = Z.to_nat max_width) letters →
  ∀ file, ∃ file',
    font_to_pixels_blocks letters total_mask actual_height max_width file
    = (file', Return ()).
Proof.
  intros Hwidth Hheight Hnone Hletters.
  induction Hletters as [|char_arr letters (Hwf & Hrows & Hcols) _ IH]; intros file.
  - exists file. reflexivity.
  - simpl.
    destruct (mask_rows_kept char_arr total_mask Hwf (eq_sym Hrows))
      as (kept & -> & Hnumber & Hkept). simpl.
    rewrite Hcols in *.
    destruct (to_bitfield_returns kept actual_height max_width) as [text ->].
    + lia.
    + exact Hwidth.
    + intros Hzero. destruct kept; [reflexivity|]. specialize (Hnone Hzero).
      simpl in Hnumber. lia.
    + exact Hkept.
    + apply IH.
Qed.

Lemma font_size_unknown (fuel : nat) (font_path : str) (all_letters : list codepoint)
    (font_size_option : str) (letter_max_px_width str_max_px_width : Z)
    (max_width_string : list codepoint) (input_font_size : Z) :
  font_size_option ≠ lit "font_size" →
  font_size_option ≠ lit "letter_max_px_width" →
  font_size_option ≠ lit "str_max_px_width" →
  font_size_option ≠ lit "max_px_both" →
  font_to_pixels_font_size fuel font_path all_letters font_size_option
    letter_max_px_width str_max_px_width max_width_string input_font_size
  = Return None.
Proof.
  intros H1 H2 H3 H4. unfold font_to_pixels_font_size.
  repeat (destruct (decide _); [contradiction|]). reflexivity.
Qed.

Lemma font_size_fixed (fuel : nat) (font_path : str) (all_letters : list codepoint)
    (letter_max_px_width str_max_px_width : Z)
    (max_width_string : list codepoint) (input_font_size : Z) :
  font_to_pixels_font_size fuel font_path all_letters (lit "font_size")
    letter_max_px_width str_max_px_width max_width_string input_font_size
  = Return (Some input_font_size).
Proof.
  unfold font_to_pixels_font_size. destruct (decide _); [reflexivity|contradiction].
Qed.

Lemma raster_no_letters (font_path : str) (font_size : Z) :
  font_to_pixels_raster font_path [] (Some font_size) = Raise IndexError.
Proof.
  unfold font_to_pixels_raster. simpl.
  destruct (get_max_letter_dimensions [] (truetype font_path font_size)). reflexivity.
Qed.

(** A run that gets to the [print] opens the file and returns; any other
    run stops before, with nothing printed and the file untouched. *)
Lemma font_to_pixels_run (fuel : nat) (font_path output_file_path : str)
    (all_letters : list codepoint) (font_size_option : str)
    (letter_max_px_width str_max_px_width : Z) (max_width_string : list codepoint)
    (input_font_size : Z) :
  match font_to_pixels_prepared fuel font_path all_letters font_size_option
          letter_max_px_width str_max_px_width max_width_string input_font_size with
  | Return (max_width, letters, total_mask, actual_height) =>
      ∃ content,
        font_to_pixels fuel font_path output_file_path all_letters font_size_option
          letter_max_px_width str_max_px_width max_width_string input_font_size
        = mk_run [lit "Pixel size H x W: " ++ str_of_int actual_height
                  ++ lit " x " ++ str_of_int max_width]
                 (Opened content) (Return ())
  | Raise e =>
      font_to_pixels fuel font_path output_file_path all_letters font_size_option
        letter_max_px_width str_max_px_width max_width_string input_font_size
      = mk_run [] Untouched (Raise e)
  | OutOfFuel =>
      font_to_pixels fuel font_path output_file_path all_letters font_size_option
        letter_max_px_width str_max_px_width max_width_string input_font_size
      = mk_run [] Untouched OutOfFuel
  end.
Proof.
  unfold font_to_pixels, font_to_pixels_prepared.
  destruct (font_to_pixels_font_size _ _ _ _ _ _ _ _ ≫= _)
    as [[[[max_width letters] total_mask] actual_height]| |] eqn:Hprepared; try reflexivity.
  destruct (font_to_pixels_font_size _ _ _ _ _ _ _ _) as [font_size| |];
    try discriminate. simpl in Hprepared.
  destruct (raster_returned _ _ _ _ _ _ _ Hprepared)
    as (Hletters & Hwidth & Hheight & Hnone & Hshape).
  destruct (font_to_pixels_blocks_return letters total_mask actual_height max_width
              Hwidth Hheight Hnone Hshape generate_header) as [file ->].
  eexists. reflexivity.
Qed.

Lemma prepared_unknown (fuel : nat) (font_path : str) (all_letters : list codepoint)
    (font_size_option : str) (letter_max_px_width str_max_px_width : Z)
    (max_width_string : list codepoint) (input_font_size : Z) :
  font_size_option ≠ lit "font_size" →
  font_size_option ≠ lit "letter_max_px_width" →
  font_size_option ≠ lit "str_max_px_width" →
  font_size_option ≠ lit "max_px_both" →
  font_to_pixels_prepared fuel font_path all_letters font_size_option
    letter_max_px_width str_max_px_width max_width_string input_font_size
  = Raise UnboundLocalError.
Proof.
  intros H1 H2 H3 H4. unfold font_to_pixels_prepared.
  rewrite font_size_unknown by assumption. reflexivity.
Qed.

Lemma prepared_fixed_no_letters (fuel : nat) (font_path : str)
    (letter_max_px_width str_max_px_width : Z)
    (max_width_string : list codepoint) (input_font_size : Z) :
  font_to_pixels_prepared fuel font_path [] (lit "font_size")
    letter_max_px_width str_max_px_width max_width_string input_font_size
  = Raise IndexError.
Proof.
  unfold font_to_pixels_prepared. rewrite font_size_fixed.
  exact (raster_no_letters font_path input_font_size).
Qed.

Lemma prepared_no_letters (fuel : nat) (font_path : str) (font_size_option : str)
    (letter_max_px_width str_max_px_width : Z)
    (max_width_string : list codepoint) (input_font_size : Z) :
  ∀ prepared,
    font_to_pixels_prepared fuel font_path [] font_size_option
      letter_max_px_width str_max_px_width max_width_string input_font_size
    ≠ Return prepared.
Proof.
  intros [[[max_width letters] total_mask] actual_height] Hprepared.
  unfold font_to_pixels_prepared in Hprepared.
  destruct (font_to_pixels_font_size _ _ _ _ _ _ _ _) as [font_size| |];
    try discriminate. simpl in Hprepared.
  by destruct (raster_returned _ _ _ _ _ _ _ Hprepared) as [Hletters _].
Qed.

End Pipeline.

(** A run on one glyph of size 1: a canvas of 5 by 20, trimmed to the ten
    rows of the glyph and the row below. *)
Example font_to_pixels_one_glyph :
  stdout (font_to_pixels (PIL := block_font) 0 (lit "calibri.ttf") (lit "output_file.cpp")
            (lit "1") (lit "font_size") 40 360 (lit "23") 1)
  = [lit "Pixel size H x W: 11 x 5"].
Proof. vm_compute. reflexivity. Qed.

(** A mode that is none of the four: [font_size] is read unbound. *)
Example font_to_pixels_unknown_mode :
  font_to_pixels (PIL := block_font) 0 (lit "calibri.ttf") (lit "output_file.cpp")
    (lit "1") (lit "both") 40 360 (lit "23") 1
  = mk_run [] Untouched (Raise UnboundLocalError).
Proof. vm_compute. reflexivity. Qed.

(** C9, as the spec has it, fails: a pixel limit that is not positive is no
    error. With a width limit of 0, and with a height limit of -3, the
    search returns size 1 at once and the run goes on to write its file. *)
Lemma C9_non_positive_limit_is_no_error :
  result (font_to_pixels (PIL := block_font) 0 (lit "calibri.ttf") (lit "output_file.cpp")
            (lit "01") (lit "str_max_px_width") 40 0 (lit "23") 60)
  = Return ()
  ∧ (∃ content,
       output_file (font_to_pixels (PIL := block_font) 0 (lit "calibri.ttf")
                      (lit "output_file.cpp") (lit "01") (lit "str_max_px_width")
                      40 0 (lit "23") 60)
       = Opened content)
  ∧ result (font_to_pixels (PIL := block_font) 0 (lit "calibri.ttf") (lit "output_file.cpp")
              (lit "01") (lit "letter_max_px_width") (-3) 360 (lit "23") 60)
    = Return ()
  ∧ (∃ content,
       output_file (font_to_pixels (PIL := block_font) 0 (lit "calibri.ttf")
                      (lit "output_file.cpp") (lit "01") (lit "letter_max_px_width")
                      (-3) 360 (lit "23") 60)
       = Opened content).
Proof.
  split; [vm_compute; reflexivity|]. split; [eexists; vm_compute; reflexivity|].
  split; [vm_compute; reflexivity|]. eexists; vm_compute; reflexivity.
Qed.

(** C9, amended: the output file is opened only by a run that goes on to
    return: every exception, and a size search that does not end, leaves
    the file untouched and prints nothing. A size-selection mode that is
    none of the four raises [UnboundLocalError]; an empty alphabet never
    lets the run return, and raises [IndexError] in the fixed-size mode.
    (A pixel limit that is not positive is not among the errors.) *)
Theorem C9_errors_come_before_the_output (PIL : FontEngine) (fuel : nat)
    (font_path output_file_path : str) (all_letters max_width_string : list codepoint)
    (font_size_option : str) (letter_max_px_width str_max_px_width input_font_size : Z) :
  let ran := font_to_pixels fuel font_path output_file_path all_letters font_size_option
               letter_max_px_width str_max_px_width max_width_string input_font_size in
  (result ran ≠ Return () ↔ output_file ran = Untouched)
  ∧ (result ran ≠ Return () → stdout ran = [])
  ∧ (font_size_option ≠ lit "font_size" →
     font_size_option ≠ lit "letter_max_px_width" →
     font_size_option ≠ lit "str_max_px_width" →
     font_size_option ≠ lit "max_px_both" →
     result ran = Raise UnboundLocalError)
  ∧ (all_letters = [] → result ran ≠ Return ())
  ∧ (all_letters = [] → font_size_option = lit "font_size" → result ran = Raise IndexError).
Proof.
  intros ran.
  pose proof (font_to_pixels_run fuel font_path output_file_path all_letters font_size_option
                letter_max_px_width str_max_px_width max_width_string input_font_size)
    as Hrun.
  fold ran in Hrun.
  assert (all_letters = [] → result ran ≠ Return ()) as Hempty.
  { intros -> Hreturned.
    pose proof (prepared_no_letters fuel font_path font_size_option letter_max_px_width
                  str_max_px_width max_width_string input_font_size) as Hnot.
    destruct (font_to_pixels_prepared _ _ _ _ _ _ _ _)
      as [[[[max_width letters] total_mask] actual_height]| |];
      [by eapply Hnot | rewrite Hrun in Hreturned; discriminate..]. }
  split; [|split; [|split; [|split]]].
  - destruct (font_to_pixels_prepared _ _ _ _ _ _ _ _)
      as [[[[max_width letters] total_mask] actual_height]| |].
    + destruct Hrun as [content ->]. simpl. split; [intros Hno; by destruct Hno|discriminate].
    + rewrite Hrun. simpl. split; [reflexivity|discriminate].
    + rewrite Hrun. simpl. split; [reflexivity|discriminate].
  - destruct (font_to_pixels_prepared _ _ _ _ _ _ _ _)
      as [[[[max_width letters] total_mask] actual_height]| |].
    + destruct Hrun as [content ->]. simpl. intros Hno. by destruct Hno.
    + rewrite Hrun. reflexivity.
    + rewrite Hrun. reflexivity.
  - intros H1 H2 H3 H4. rewrite prepared_unknown in Hrun by assumption.
    rewrite Hrun. reflexivity.
  - exact Hempty.
  - intros -> ->. rewrite prepared_fixed_no_letters in Hrun. rewrite Hrun. reflexivity.
Qed.

(** ** More on the font-size search *)

Section SearchMore.
Context {PIL : FontEngine}.

(** Where a loop that ends has stopped: at the first size, from the one it
    was entered with, that measures [limit] or more. *)
Lemma scan_loop_stopped_first (measure : Z → Z) (limit : Z) (fuel : nat) :
  ∀ s d l st,
    d < limit →
    while fuel (λ st, dim st <? limit) (scan_step measure)
      {| dim := d; size := s; last_size := l |} = Return st →
    ∃ k, s ≤ k
         ∧ (∀ j, s ≤ j < k → measure j < limit)
         ∧ limit ≤ measure k
         ∧ st = {| dim := measure k; size := k + 1; last_size := k |}.
Proof.
  induction fuel as [|fuel IH]; intros s d l st Hd; simpl;
    destruct (Z.ltb_spec d limit); try lia; [discriminate|].
  intros Hrun. unfold scan_step at 2 in Hrun. simpl in Hrun.
  destruct (Z_lt_le_dec (measure s) limit) as [Hlow|Hreach].
  - apply IH in Hrun as (k & Hk & Hbelow & Hreach & ->); [|exact Hlow].
    exists k. split; [lia|]. split; [|split; [exact Hreach|reflexivity]].
    intros j Hj. destruct (Z.eq_dec j s) as [->|]; [exact Hlow|]. apply Hbelow. lia.
  - exists s. split; [lia|]. split; [intros j Hj; lia|]. split; [exact Hreach|].
    destruct fuel; simpl in Hrun; destruct (Z.ltb_spec (measure s) limit); try lia;
      by injection Hrun as <-.
Qed.

(** What a scan that returns has returned. *)
Lemma ascending_scan_returned (measure : Z → Z) (limit : Z) (fuel : nat) (r : Z) :
  ascending_scan fuel measure limit = Return r →
  (limit ≤ 0 ∧ r = 1)
  ∨ (0 < limit
     ∧ ∃ s0, 1 ≤ s0
             ∧ (∀ j, 1 ≤ j < s0 → measure j < limit)
             ∧ limit ≤ measure s0
             ∧ r = if measure s0 >? limit then s0 else s0 + 1).
Proof.
  unfold ascending_scan. intros Hrun.
  destruct (while fuel _ _ _) as [st| |] eqn:Hloop; try discriminate. simpl in Hrun.
  destruct (Z_lt_le_dec 0 limit) as [Hpos|Hnonpos].
  - right. split; [exact Hpos|].
    apply scan_loop_stopped_first in Hloop as (k & Hk & Hbelow & Hreach & ->); [|exact Hpos].
    exists k. simpl in Hrun. repeat split; try assumption.
    destruct (measure k >? limit); by injection Hrun as <-.
  - left. split; [exact Hnonpos|].
    destruct fuel; simpl in Hloop; destruct (Z.ltb_spec 0 limit); try lia;
      injection Hloop as <-; simpl in Hrun;
      destruct (0 >? limit); by injection Hrun as <-.
Qed.

Lemma ascending_scan_monotone (measure : Z → Z) (limit limit' : Z) (fuel fuel' : nat)
    (r r' : Z) :
  limit ≤ limit' →
  ascending_scan fuel measure limit = Return r →
  ascending_scan fuel' measure limit' = Return r' →
  r ≤ r'.
Proof.
  intros Hle Hrun Hrun'.
  apply ascending_scan_returned in Hrun as [[Hnon ->]|(Hpos & s0 & Hs0 & Hbelow & Hreach & ->)];
    apply ascending_scan_returned in Hrun'
      as [[Hnon' ->]|(Hpos' & s0' & Hs0' & Hbelow' & Hreach' & ->)]; try lia.
  - destruct (measure s0' >? limit'); lia.
  - assert (s0 ≤ s0') as Hfirst.
    { destruct (Z_lt_le_dec s0' s0) as [Hlt|]; [|assumption].
      specialize (Hbelow s0' ltac:(lia)). lia. }
    destruct (Z.gtb_spec (measure s0) limit) as [Hover|Hexact];
      destruct (Z.gtb_spec (measure s0') limit'); try lia.
    all: destruct (Z.eq_dec s0 s0') as [<-|]; lia.
Qed.

Lemma ascending_scan_skipped (measure : Z → Z) (limit : Z) (fuel : nat) :
  limit ≤ 0 → ascending_scan fuel measure limit = Return 1.
Proof.
  intros Hnon. unfold ascending_scan.
  destruct fuel; simpl; destruct (Z.ltb_spec 0 limit); try lia; simpl;
    destruct (0 >? limit); reflexivity.
Qed.

End SearchMore.

(** X1 (width search, what it returns): under a positive limit, with [s0]
    the first size at which the probe string measures the limit or more,
    the width search returns [s0] when that width is over the limit and
    [s0 + 1] when it is the limit exactly, as soon as it may run [s0]
    iterations. *)
Theorem X1_width_search_result (PIL : FontEngine) (string : list codepoint) (font : str)
    (px_width s0 : Z) (fuel : nat) :
  0 < px_width →
  1 ≤ s0 →
  (∀ j, 1 ≤ j < s0 → width_at string font j < px_width) →
  px_width ≤ width_at string font s0 →
  (Z.to_nat s0 ≤ fuel)%nat →
  determine_font_size_by_max_width fuel string font px_width
  = Return (if width_at string font s0 >? px_width then s0 else s0 + 1).
Proof.
  intros Hpos Hs0 Hbelow Hreach Hfuel. rewrite width_search_is_scan.
  by apply ascending_scan_result.
Qed.

(** A width that is hit exactly: the text "2" is 10 wide at size 2, and
    under a limit of 10 the search returns 3. *)
Lemma X1_width_search_exact_hit :
  determine_font_size_by_max_width (PIL := block_font) 2 (lit "2") (lit "calibri.ttf") 10
  = Return 3.
Proof.
  apply (X1_width_search_result block_font (lit "2") (lit "calibri.ttf") 10 2 2);
    [lia | lia | | vm_compute; discriminate | lia].
  intros j Hj. assert (j = 1) as -> by lia. vm_compute. reflexivity.
Defined.

(** X2 (height search, what it returns): the same for the heights, against
    the limit less the two rows of padding. *)
Theorem X2_height_search_result (PIL : FontEngine) (string : list codepoint) (font : str)
    (px_height s0 : Z) (fuel : nat) :
  2 < px_height →
  1 ≤ s0 →
  (∀ j, 1 ≤ j < s0 → height_at string font j < px_height - 2) →
  px_height - 2 ≤ height_at string font s0 →
  (Z.to_nat s0 ≤ fuel)%nat →
  determine_font_size_by_max_height fuel string font px_height
  = Return (if height_at string font s0 >? px_height - 2 then s0 else s0 + 1).
Proof.
  intros Hpos Hs0 Hbelow Hreach Hfuel. rewrite height_search_is_scan.
  apply ascending_scan_result; (assumption || lia).
Qed.

Lemma X2_height_search_example :
  determine_font_size_by_max_height (PIL := block_font) 4 (lit "0") (lit "calibri.ttf") 40
  = Return 4.
Proof.
  apply (X2_height_search_result block_font (lit "0") (lit "calibri.ttf") 40 4 4);
    [lia | lia | | vm_compute; discriminate | lia].
  intros j Hj. unfold height_at. simpl. lia.
Defined.

(** X3 (a limit that leaves no room): with a width limit of 0 or less, and
    with a height limit of 2 or less, the searches return size 1 without
    measuring anything, whatever the font and the number of iterations
    allowed. *)
Theorem X3_search_without_room (PIL : FontEngine) (max_width_string all_letters : list codepoint)
    (font : str) (px_width px_height : Z) (fuel : nat) :
  px_width ≤ 0 →
  px_height ≤ 2 →
  determine_font_size_by_max_width fuel max_width_string font px_width = Return 1
  ∧ determine_font_size_by_max_height fuel all_letters font px_height = Return 1.
Proof.
  intros Hwidth Hheight. rewrite width_search_is_scan, height_search_is_scan.
  split; apply ascending_scan_skipped; lia.
Qed.

Lemma X3_search_without_room_example :
  determine_font_size_by_max_width (PIL := block_font) 0 (lit "23") (lit "calibri.ttf") 0
  = Return 1
  ∧ determine_font_size_by_max_height (PIL := block_font) 0 (lit "01") (lit "calibri.ttf") 2
    = Return 1.
Proof.
  apply (X3_search_without_room block_font (lit "23") (lit "01") (lit "calibri.ttf") 0 2 0);
    lia.
Defined.

(** X4 (the searches follow the limit): of two limits, the larger never
    gives the smaller size, for any font, monotonic or not, whenever both
    searches return. *)
Theorem X4_search_follows_limit (PIL : FontEngine) (string : list codepoint) (font : str)
    (limit limit' : Z) (fuel fuel' : nat) :
  limit ≤ limit' →
  (∀ r r',
     determine_font_size_by_max_width fuel string font limit = Return r →
     determine_font_size_by_max_width fuel' string font limit' = Return r' →
     1 ≤ r ≤ r')
  ∧ (∀ r r',
       determine_font_size_by_max_height fuel string font limit = Return r →
       determine_font_size_by_max_height fuel' string font limit' = Return r' →
       1 ≤ r ≤ r').
Proof.
  intros Hle. split; intros r r' Hrun Hrun'.
  - rewrite width_search_is_scan in Hrun, Hrun'. split.
    + apply ascending_scan_returned in Hrun as [[_ ->]|(_ & s0 & Hs0 & _ & _ & ->)]; [lia|].
      destruct (_ >? _); lia.
    + by eapply ascending_scan_monotone.
  - rewrite height_search_is_scan in Hrun, Hrun'. split.
    + apply ascending_scan_returned in Hrun as [[_ ->]|(_ & s0 & Hs0 & _ & _ & ->)]; [lia|].
      destruct (_ >? _); lia.
    + eapply ascending_scan_monotone; [|exact Hrun|exact Hrun']. lia.
Qed.

Lemma X4_search_follows_limit_example :
  determine_font_size_by_max_width (PIL := block_font) 9 (lit "2") (lit "calibri.ttf") 12
  = Return 3
  ∧ determine_font_size_by_max_width (PIL := block_font) 9 (lit "2") (lit "calibri.ttf") 40
    = Return 9
  ∧ (∀ r r',
       determine_font_size_by_max_width (PIL := block_font) 9 (lit "2") (lit "calibri.ttf") 12
       = Return r →
       determine_font_size_by_max_width (PIL := block_font) 9 (lit "2") (lit "calibri.ttf") 40
       = Return r' →
       1 ≤ r ≤ r').
Proof.
  split; [vm_compute; reflexivity|]. split; [vm_compute; reflexivity|].
  apply (X4_search_follows_limit block_font (lit "2") (lit "calibri.ttf") 12 40 9 9). lia.
Defined.

(** ** More on the shared row mask *)

Lemma mask_step_near (mask total_mask : list bool) (index : nat) :
  (index < length mask)%nat →
  mask_step mask total_mask index
  = if near mask index then setitem total_mask index true else Return total_mask.
Proof.
  intros Hindex. unfold mask_step, near.
  destruct (lookup_lt_is_Some_2 mask index Hindex) as [here Hhere].
  destruct (lookup_lt_is_Some_2 mask (Z.to_nat (Z.max (Z.of_nat index - 1) 0)))
    as [above Habove]; [lia|].
  destruct (lookup_lt_is_Some_2 mask
              (Z.to_nat (Z.min (Z.of_nat index + 1) (Z.of_nat (length mask) - 1))))
    as [below Hbelow]; [lia|].
  rewrite (getitem_lookup mask (Z.of_nat index) here); [|lia|by rewrite Nat2Z.id].
  rewrite Hhere, Habove, Hbelow. simpl.
  destruct here; simpl; [reflexivity|].
  rewrite (getitem_lookup mask (Z.max (Z.of_nat index - 1) 0) above); [|lia|exact Habove].
  simpl. destruct above; simpl; [reflexivity|].
  rewrite (getitem_lookup mask (Z.min (Z.of_nat index + 1) (Z.of_nat (length mask) - 1)) below);
    [|lia|exact Hbelow].
  simpl. destruct below; reflexivity.
Qed.

Lemma mask_loop_fit (mask : list bool) (k : nat) :
  ∀ (a : nat) (total_mask : list bool),
    (a + k ≤ length mask)%nat →
    foldM_outcome (mask_step mask) (seq a k) total_mask
    = if forallb (λ index, negb (near mask index) || (index <? length total_mask)%nat)
           (seq a k)
      then Return (fold_left (mark_row mask) (seq a k) total_mask)
      else Raise IndexError.
Proof.
  induction k as [|k IH]; intros a total_mask Hrange; simpl; [reflexivity|].
  rewrite mask_step_near by lia. unfold mark_row at 2, setitem.
  destruct (near mask a); simpl.
  - destruct (a <? length total_mask)%nat eqn:Hin; simpl; [|reflexivity].
    rewrite IH by lia. by rewrite length_insert.
  - apply IH. lia.
Qed.

Lemma masks_loop_fit (masks : list (list bool)) :
  ∀ total_mask : list bool,
    foldM_outcome
      (λ total_mask mask, foldM_outcome (mask_step mask) (seq 0 (length mask)) total_mask)
      masks total_mask
    = if forallb (rows_fit (length total_mask)) masks
      then Return (fold_left mark_mask masks total_mask)
      else Raise IndexError.
Proof.
  induction masks as [|mask masks IH]; intros total_mask; simpl; [reflexivity|].
  rewrite mask_loop_fit by lia. fold (rows_fit (length total_mask) mask).
  destruct (rows_fit (length total_mask) mask); simpl; [|reflexivity].
  fold (mark_mask total_mask mask). rewrite IH, length_mark_mask. reflexivity.
Qed.

Lemma getitem_last {A : Type} (l : list A) :
  getitem l (-1) = match last l with Some x => Return x | None => Raise IndexError end.
Proof.
  destruct l as [|x l] using rev_ind; [reflexivity|].
  rewrite last_snoc. unfold getitem. rewrite length_app. simpl length.
  change (-1 <? 0) with true. cbv iota.
  destruct (Z.leb_spec 0 (Z.of_nat (length l + 1) + -1)); [|lia].
  destruct (Z.ltb_spec (Z.of_nat (length l + 1) + -1) (Z.of_nat (length l + 1))); [|lia].
  simpl. replace (Z.to_nat (Z.of_nat (length l + 1) + -1)) with (length l) by lia.
  by rewrite list_lookup_middle.
Qed.

(** [determine_final_height], without its exceptions. *)
Lemma determine_final_height_fit (masks : list (list bool)) :
  determine_final_height masks
  = match last masks with
    | Some last_mask =>
        if forallb (rows_fit (length last_mask)) masks
        then Return (shared_mask (length last_mask) masks,
                     count (shared_mask (length last_mask) masks) true)
        else Raise IndexError
    | None => Raise IndexError
    end.
Proof.
  unfold determine_final_height. rewrite getitem_last.
  destruct (last masks) as [last_mask|]; [|reflexivity]. simpl.
  rewrite masks_loop_fit, length_replicate.
  destruct (forallb _ masks); reflexivity.
Qed.

Lemma near_set (mask : list bool) (j : nat) :
  (j < length mask)%nat →
  near mask j = true ↔
  ∃ i, mask !! i = Some true ∧ (i = j ∨ (i + 1)%nat = j ∨ i = (j + 1)%nat).
Proof.
  intros Hj. split.
  - unfold near. intros Hnear.
    apply orb_true_iff in Hnear as [Hnear|Hbelow];
      [apply orb_true_iff in Hnear as [Hhere|Habove]|].
    + exists j. destruct (mask !! j) as [[]|] eqn:Hset; try discriminate. auto.
    + destruct (mask !! Z.to_nat (Z.max (Z.of_nat j - 1) 0)) as [[]|] eqn:Hset;
        try discriminate.
      eexists. split; [exact Hset|]. lia.
    + destruct (mask !! Z.to_nat (Z.min (Z.of_nat j + 1) (Z.of_nat (length mask) - 1)))
        as [[]|] eqn:Hset; try discriminate.
      eexists. split; [exact Hset|]. lia.
  - intros (i & Hi & Hnext). apply (near_of_set mask i j Hi).
    apply lookup_lt_Some in Hi. lia.
Qed.

Lemma rows_fit_spec (n : nat) (mask : list bool) :
  rows_fit n mask = true ↔
  ∀ j, (j < length mask)%nat → near mask j = true → (j < n)%nat.
Proof.
  unfold rows_fit. rewrite forallb_forall. split.
  - intros Hfit j Hj Hnear. specialize (Hfit j).
    rewrite Hnear in Hfit. simpl in Hfit. apply Nat.ltb_lt, Hfit, in_seq. lia.
  - intros Hfit j Hin. apply in_seq in Hin.
    destruct (near mask j) eqn:Hnear; [|reflexivity]. simpl.
    apply Nat.ltb_lt, Hfit; [lia|exact Hnear].
Qed.

Lemma lookup_fold_mark_mask_any (masks : list (list bool)) :
  ∀ (total_mask : list bool) (j : nat) (b : bool),
    total_mask !! j = Some b →
    fold_left mark_mask masks total_mask !! j
    = Some (b || existsb (λ mask, bool_decide (j < length mask)%nat && near mask j) masks).
Proof.
  induction masks as [|mask masks IH]; intros total_mask j b Hj; simpl.
  - by rewrite orb_false_r.
  - rewrite (IH _ j (b || (bool_decide (j < length mask)%nat && near mask j))).
    + by rewrite orb_assoc.
    + unfold mark_mask. rewrite (lookup_fold_mark_row _ _ _ _ _ _ Hj).
      do 3 f_equal. apply bool_decide_ext. lia.
Qed.

(** X5 (the rows that are kept): when no mask is longer than the last one,
    [determine_final_height] returns a shared mask as long as the last
    mask, and row [j] is set in it exactly when some mask has row [j] and
    has a row set at [j] or next to it: no row is kept without ink on it or
    beside it. *)
Theorem X5_kept_rows_are_near_ink (masks : list (list bool)) (last_mask : list bool) :
  last masks = Some last_mask →
  Forall (λ mask, (length mask ≤ length last_mask)%nat) masks →
  ∃ total_mask actual_height,
    determine_final_height masks = Return (total_mask, actual_height)
    ∧ length total_mask = length last_mask
    ∧ ∀ j,
        total_mask !! j = Some true ↔
        ∃ mask i,
          mask ∈ masks ∧ (j < length mask)%nat ∧ mask !! i = Some true
          ∧ (i = j ∨ (i + 1)%nat = j ∨ i = (j + 1)%nat).
Proof.
  intros Hlast Hshort. rewrite determine_final_height_fit, Hlast.
  assert (forallb (rows_fit (length last_mask)) masks = true) as ->.
  { apply forallb_forall. intros mask Hin. apply rows_fit_spec. intros j Hj _.
    rewrite Forall_forall in Hshort. apply list_elem_of_In in Hin.
    specialize (Hshort mask Hin). simpl in Hshort. lia. }
  eexists _, _. split; [reflexivity|]. split; [apply length_shared_mask|].
  intros j. unfold shared_mask. split.
  - intros Hset. pose proof (lookup_lt_Some _ _ _ Hset) as Hj.
    rewrite length_fold_mark_mask, length_replicate in Hj.
    rewrite (lookup_fold_mark_mask_any masks _ j false) in Hset
      by (by apply lookup_replicate_2).
    injection Hset as Hset. simpl in Hset.
    apply existsb_exists in Hset as (mask & Hin & Hnear).
    apply andb_true_iff in Hnear as [Hrow Hnear]. apply bool_decide_eq_true in Hrow.
    apply near_set in Hnear as (i & Hi & Hnext); [|exact Hrow].
    exists mask, i. split; [by apply list_elem_of_In|]. auto.
  - intros (mask & i & Hin & Hrow & Hi & Hnext).
    assert (j < length last_mask)%nat as Hj.
    { rewrite Forall_forall in Hshort. specialize (Hshort mask Hin). simpl in Hshort. lia. }
    rewrite (lookup_fold_mark_mask_any masks _ j false) by (by apply lookup_replicate_2).
    f_equal. simpl. apply existsb_exists. exists mask.
    split; [by apply list_elem_of_In|].
    apply andb_true_iff. split; [by apply bool_decide_eq_true|].
    apply near_set; [exact Hrow|]. eauto.
Qed.

(** A short mask before the last: its ink at row 1 keeps rows 0 and 1, and
    the ink of the last mask at row 3 keeps rows 2 and 3. *)
Lemma X5_kept_rows_example :
  ∃ total_mask actual_height,
    determine_final_height [[false; true]; [false; false; false; true]]
    = Return (total_mask, actual_height)
    ∧ length total_mask = length [false; false; false; true]
    ∧ ∀ j,
        total_mask !! j = Some true ↔
        ∃ mask i,
          mask ∈ [[false; true]; [false; false; false; true]]
          ∧ (j < length mask)%nat ∧ mask !! i = Some true
          ∧ (i = j ∨ (i + 1)%nat = j ∨ i = (j + 1)%nat).
Proof.
  apply (X5_kept_rows_are_near_ink [[false; true]; [false; false; false; true]]
           [false; false; false; true]).
  - reflexivity.
  - repeat constructor.
Defined.

(** X6 (when the height trimming fails): [determine_final_height] never
    fails otherwise than by [IndexError], and it returns exactly when it is
    given a mask and every row that is selected in a mask, for ink on it or
    beside it, is a row of the last mask. In particular it raises on no
    mask at all, and on ink past the end of the last mask. *)
Theorem X6_final_height_raises (masks : list (list bool)) :
  ((∃ returned, determine_final_height masks = Return returned)
   ∨ determine_final_height masks = Raise IndexError)
  ∧ ((∃ returned, determine_final_height masks = Return returned) ↔
     ∃ last_mask,
       last masks = Some last_mask
       ∧ ∀ mask i j,
           mask ∈ masks → (j < length mask)%nat → mask !! i = Some true →
           (i = j ∨ (i + 1)%nat = j ∨ i = (j + 1)%nat) →
           (j < length last_mask)%nat).
Proof.
  rewrite determine_final_height_fit.
  destruct (last masks) as [last_mask|] eqn:Hlast.
  - destruct (forallb (rows_fit (length last_mask)) masks) eqn:Hfit.
    + split; [left; eauto|]. split; [|eauto]. intros _. exists last_mask.
      split; [reflexivity|]. intros mask i j Hin Hj Hi Hnext.
      rewrite forallb_forall in Hfit. apply list_elem_of_In in Hin.
      specialize (Hfit mask Hin). rewrite rows_fit_spec in Hfit.
      apply Hfit; [exact Hj|]. apply near_set; eauto.
    + split; [right; reflexivity|]. split; [intros [returned Hrun]; discriminate|].
      intros (last_mask' & Hlast' & Hrows). injection Hlast' as <-.
      assert (forallb (rows_fit (length last_mask)) masks = true) as Hall; [|congruence].
      apply forallb_forall. intros mask Hin. apply rows_fit_spec. intros j Hj Hnear.
      apply near_set in Hnear as (i & Hi & Hnext); [|exact Hj].
      apply list_elem_of_In in Hin. eauto.
  - split; [right; reflexivity|]. split; [intros [returned Hrun]; discriminate|].
    intros (last_mask & Hlast' & _). discriminate.
Qed.

(** ** More on the hexadecimal literals *)

Lemma hex_str_value_from_app (s1 s2 : str) :
  ∀ acc, hex_str_value_from acc (s1 ++ s2)
         = match hex_str_value_from acc s1 with
           | Some v => hex_str_value_from v s2
           | None => None
           end.
Proof.
  induction s1 as [|c s1 IH]; intros acc; simpl; [reflexivity|].
  destruct (hex_value c); [apply IH|reflexivity].
Qed.

Lemma hex_str_value_fixed (k : nat) :
  ∀ n acc, 0 ≤ n < 16 ^ Z.of_nat k →
           hex_str_value_from acc (hex_fixed k n) = Some (acc * 16 ^ Z.of_nat k + n).
Proof.
  induction k as [|k IH]; intros n acc Hn.
  - simpl in *. f_equal. lia.
  - rewrite hex_fixed_snoc, hex_str_value_from_app.
    rewrite Nat2Z.inj_succ, Z.pow_succ_r in * by lia.
    rewrite IH by (split; [apply Z.div_pos; lia | apply Z.div_lt_upper_bound; lia]).
    simpl. destruct (hex_value_digit (n mod 16)) as [-> _]; [apply Z.mod_pos_bound; lia|].
    f_equal. pose proof (Z.div_mod n 16). lia.
Qed.

Lemma hex_str_value_zeros (p : nat) (s : str) :
  hex_str_value (replicate p "0"%char ++ s) = hex_str_value s.
Proof.
  unfold hex_str_value. induction p as [|p IH]; [reflexivity|]. exact IH.
Qed.

(** What [format_0x] writes for a number that is not negative: its digits,
    as few as it takes, behind the zeros that fill the width. *)
Lemma format_0x_digits (num width : Z) :
  0 ≤ num → 0 ≤ width →
  ∃ k : nat,
    (1 ≤ k)%nat
    ∧ num < 16 ^ Z.of_nat k
    ∧ (k = 1%nat ∨ 16 ^ (Z.of_nat k - 1) ≤ num)
    ∧ format_0x num width
      = Return (replicate (Z.to_nat width - k) "0"%char ++ hex_fixed k num).
Proof.
  intros Hnum Hwidth. unfold format_0x.
  destruct (Z.ltb_spec width 0); [lia|]. destruct (Z.ltb_spec num 0); [lia|].
  rewrite Z.abs_eq by lia. unfold hex_digits.
  destruct (hex_digits_go_fixed (Datatypes.S (Z.to_nat (Z.log2 num))) num [])
    as (k & Hk & Hfit & Hmin & ->); [lia| |].
  { split; [lia|]. destruct (Z.eq_dec num 0) as [->|Hpos]; [simpl; lia|].
    destruct (Z.log2_spec num) as [_ Hlog]; [lia|].
    eapply Z.lt_le_trans; [exact Hlog|].
    rewrite Nat2Z.inj_succ, Z2Nat.id by apply Z.log2_nonneg.
    apply Z.pow_le_mono_l. lia. }
  exists k. rewrite app_nil_r, length_hex_fixed. simpl length.
  split; [lia|]. split; [exact Hfit|]. split; [exact Hmin|].
  simpl. rewrite Nat.sub_0_r. reflexivity.
Qed.

(** X7 (no digit is lost): for a number that is not negative,
    [hex_with_padding] writes the literals of a digit string that reads
    back as the number, is at least [width] digits long, and has more than
    [width] digits only when the number needs them: a number too large for
    [width] digits is written in full, not cut. *)
Theorem X7_hex_with_padding_keeps_number (num width : Z) :
  0 ≤ num →
  0 ≤ width →
  ∃ hex_str : str,
    hex_with_padding num width
    = Return (join (lit ", ") (map (λ group, lit "0x" ++ group) (groups_of_two hex_str)))
    ∧ hex_str_value hex_str = Some num
    ∧ Z.max width 1 ≤ Z.of_nat (length hex_str)
    ∧ (num < 16 ^ width → Z.of_nat (length hex_str) = Z.max width 1).
Proof.
  intros Hnum Hwidth.
  destruct (format_0x_digits num width Hnum Hwidth) as (k & Hk & Hfit & Hmin & Hformat).
  eexists. unfold hex_with_padding. rewrite Hformat. simpl.
  split; [by rewrite hex_pairs_groups|].
  split; [|split].
  - rewrite hex_str_value_zeros. unfold hex_str_value.
    rewrite hex_str_value_fixed by lia. f_equal; lia.
  - rewrite length_app, length_replicate, length_hex_fixed. lia.
  - intros Hsmall. rewrite length_app, length_replicate, length_hex_fixed.
    destruct Hmin as [->|Hmin]; [lia|].
    assert (Z.of_nat k ≤ width); [|lia].
    destruct (Z_lt_le_dec width (Z.of_nat k)); [|lia].
    assert (16 ^ width ≤ 16 ^ (Z.of_nat k - 1)) by (apply Z.pow_le_mono_r; lia). lia.
Qed.

(** 4660 is 1234 in hexadecimal: asked for two digits, it keeps its four. *)
Lemma X7_hex_with_padding_example :
  hex_with_padding 4660 2 = Return (lit "0x12, 0x34")
  ∧ ∃ hex_str : str,
      hex_with_padding 4660 2
      = Return (join (lit ", ") (map (λ group, lit "0x" ++ group) (groups_of_two hex_str)))
      ∧ hex_str_value hex_str = Some 4660
      ∧ Z.max 2 1 ≤ Z.of_nat (length hex_str)
      ∧ (4660 < 16 ^ 2 → Z.of_nat (length hex_str) = Z.max 2 1).
Proof.
  split; [vm_compute; reflexivity|].
  apply (X7_hex_with_padding_keeps_number 4660 2); lia.
Defined.

(** ** More on the canvas of [to_bitfield] *)

Lemma pad_rows_shape (h w : nat) (rows : list (list Z)) :
  (length rows ≤ h)%nat →
  Forall (λ row, (length row ≤ w)%nat) rows →
  length (pad_rows h w rows) = h
  ∧ Forall (λ row, length row = w) (pad_rows h w rows).
Proof.
  intros Hrows Hcols. unfold pad_rows. split.
  - rewrite length_app, length_map, length_replicate. lia.
  - apply Forall_app. split.
    + apply Forall_fmap. eapply Forall_impl; [exact Hcols|].
      intros row Hrow. simpl in *. rewrite length_app, length_replicate. lia.
    + apply Forall_replicate. apply length_replicate.
Qed.

Lemma assign_corner_pad (arr : ndarray Z) (h w : nat) :
  ndarray_wf arr →
  (nrows arr ≤ h)%nat →
  (ncols arr ≤ w)%nat →
  assign_corner (tabulate h w (λ _ _, 0)) arr
  = Return (mk_ndarray h w (pad_rows h w (cells arr))).
Proof.
  intros [Hrows Hcols] Hh Hw. unfold assign_corner, broadcast_ok. simpl nrows. simpl ncols.
  destruct (Nat.leb_spec (nrows arr) h); [|lia].
  destruct (Nat.leb_spec (ncols arr) w); [|lia]. simpl. do 2 f_equal.
  apply list_eq. intros i. rewrite list_lookup_imap.
  destruct (decide (i < h)%nat) as [Hi|Hi]; cycle 1.
  { assert (cells (tabulate h w (λ _ _ : nat, 0)) !! i = None) as Hnone.
    { apply lookup_ge_None_2.
      destruct (tabulate_wf h w (λ _ _ : nat, 0)) as [Hlen _]. simpl in Hlen. simpl. lia. }
    simpl in Hnone. rewrite Hnone. simpl.
    symmetry. apply lookup_ge_None_2. unfold pad_rows.
    rewrite length_app, length_map, length_replicate. lia. }
  pose proof (lookup_tabulate h w (λ _ _ : nat, 0) i Hi) as Hzero.
  simpl in Hzero. rewrite Hzero. simpl. unfold pad_rows.
  destruct (decide (i < nrows arr)%nat) as [Hin|Hout].
  - destruct (lookup_lt_is_Some_2 (cells arr) i) as [row Hrow]; [lia|].
    assert (length row = ncols arr) as Hlen by (rewrite Forall_lookup in Hcols; eauto).
    rewrite lookup_app_l by (rewrite length_map; lia).
    change (map (λ row, row ++ replicate (w - length row) 0) (cells arr))
      with ((λ row, row ++ replicate (w - length row) 0) <$> cells arr).
    rewrite list_lookup_fmap, Hrow. simpl. f_equal.
    apply list_eq. intros j. rewrite list_lookup_imap.
    change (map (λ _ : nat, 0) (seq 0 w)) with ((λ _ : nat, 0) <$> seq 0 w).
    rewrite list_lookup_fmap.
    destruct (Nat.ltb_spec i (nrows arr)); [|lia]. simpl.
    destruct (decide (j < w)%nat) as [Hj|Hj].
    + rewrite lookup_seq_lt by exact Hj. simpl.
      destruct (Nat.ltb_spec j (ncols arr)).
      * destruct (lookup_lt_is_Some_2 row j) as [x Hx]; [lia|].
        rewrite lookup_app_l by lia. rewrite Hx. reflexivity.
      * rewrite lookup_app_r by lia. symmetry. rewrite lookup_replicate. split; [reflexivity|lia].
    + rewrite lookup_seq_ge by lia. simpl. symmetry. apply lookup_ge_None_2.
      rewrite length_app, length_replicate. lia.
  - rewrite lookup_app_r by (rewrite length_map; lia).
    rewrite length_map.
    rewrite (proj2 (lookup_replicate _ _ _ _)) by (split; [reflexivity|lia]). f_equal.
    apply list_eq. intros j. rewrite list_lookup_imap.
    change (map (λ _ : nat, 0) (seq 0 w)) with ((λ _ : nat, 0) <$> seq 0 w).
    rewrite list_lookup_fmap.
    destruct (Nat.ltb_spec i (nrows arr)); [lia|]. simpl.
    destruct (decide (j < w)%nat) as [Hj|Hj].
    + rewrite lookup_seq_lt by exact Hj. simpl. symmetry.
      rewrite lookup_replicate. split; [reflexivity|lia].
    + rewrite lookup_seq_ge by lia. simpl. symmetry. apply lookup_ge_None_2.
      rewrite length_replicate. lia.
Qed.

(** X8 (a small array is padded): given an array with at most [max_height]
    rows and [max_width >= 1] columns, [to_bitfield] encodes [max_height]
    rows of [max_width] pixels: the rows of the array, each filled with off
    pixels on the right, and then rows of off pixels. *)
Theorem X8_to_bitfield_pads (arr : ndarray Z) (max_height max_width : Z) :
  ndarray_wf arr →
  Z.of_nat (nrows arr) ≤ max_height →
  Z.of_nat (ncols arr) ≤ max_width →
  1 ≤ max_width →
  to_bitfield_result arr max_height max_width
  = Return (map (encoded_line max_width)
              (pad_rows (Z.to_nat max_height) (Z.to_nat max_width) (cells arr)))
  ∧ length (pad_rows (Z.to_nat max_height) (Z.to_nat max_width) (cells arr))
    = Z.to_nat max_height.
Proof.
  intros Hwf Hrows Hcols Hwidth.
  destruct (pad_rows_shape (Z.to_nat max_height) (Z.to_nat max_width) (cells arr))
    as [Hlen Hshape].
  { destruct Hwf as [-> _]. lia. }
  { destruct Hwf as [_ Hwf]. eapply Forall_impl; [exact Hwf|]. intros row ->. lia. }
  split; [|exact Hlen].
  rewrite to_bitfield_result_lines, np_zeros_tabulate by lia. simpl.
  rewrite assign_corner_pad by (assumption || lia). simpl.
  apply mapM_outcome_all. eapply Forall_impl; [exact Hshape|].
  intros row Hrow. by apply encode_line_encoded.
Qed.

(** One row of three pixels on a canvas of two rows of five. *)
Lemma X8_to_bitfield_pads_example :
  to_bitfield_result (mk_ndarray 1 3 [[255; 0; 255]]) 2 5
  = Return [lit "0x14," ++ [tab] ++ lit " // 10100"; lit "0x00," ++ [tab] ++ lit " // 00000"].
Proof.
  apply (X8_to_bitfield_pads (mk_ndarray 1 3 [[255; 0; 255]]) 2 5); try (simpl; lia).
  split; [reflexivity|repeat constructor].
Defined.

(** X9 (a canvas of no column): with [max_width = 0] nothing can be
    encoded: [to_bitfield] returns no line when [max_height = 0] and raises
    [ValueError] as soon as there is a row, the empty string being no
    binary number. *)
Theorem X9_to_bitfield_no_column (arr : ndarray Z) (max_height : Z) :
  ndarray_wf arr →
  ncols arr = 0%nat →
  Z.of_nat (nrows arr) ≤ max_height →
  (max_height = 0 → to_bitfield_result arr max_height 0 = Return [])
  ∧ (1 ≤ max_height → to_bitfield_result arr max_height 0 = Raise ValueError).
Proof.
  intros Hwf Hcols Hrows.
  rewrite to_bitfield_result_lines, np_zeros_tabulate by lia. simpl.
  rewrite assign_corner_pad by (assumption || lia). simpl.
  split.
  - intros ->. simpl. unfold pad_rows.
    destruct Hwf as [Hlen _]. destruct (cells arr); [reflexivity|simpl in *; lia].
  - intros Hheight.
    destruct (pad_rows_shape (Z.to_nat max_height) 0 (cells arr)) as [Hlen Hshape].
    { destruct Hwf as [-> _]. lia. }
    { destruct Hwf as [_ Hwf]. eapply Forall_impl; [exact Hwf|]. intros row ->. lia. }
    destruct (pad_rows _ _ _) as [|row rows]; [simpl in Hlen; lia|].
    apply Forall_cons in Hshape as [Hrow _].
    destruct row; [reflexivity|discriminate Hrow].
Qed.

Lemma X9_to_bitfield_no_column_example :
  to_bitfield_result (mk_ndarray 0 0 []) 0 0 = Return []
  ∧ to_bitfield_result (mk_ndarray 2 0 [[]; []]) 3 0 = Raise ValueError.
Proof.
  split.
  - apply (X9_to_bitfield_no_column (mk_ndarray 0 0 []) 0); try (simpl; lia).
    split; [reflexivity|constructor].
  - apply (X9_to_bitfield_no_column (mk_ndarray 2 0 [[]; []]) 3); try (simpl; lia).
    split; [reflexivity|repeat constructor].
Defined.

(** ** More on the glyphs and the whole run *)

Section RunMore.
Context {PIL : FontEngine}.

(** X10 (what a glyph's pixels are): on a canvas of a size that is not
    negative, [char_to_pixels] returns an array of the size of the canvas
    in which a cell is 255 exactly where the engine drew grey level 0 and 0
    elsewhere, so that a grey pixel is off like the white ground; and the
    flag of a row is set exactly when the row has a pixel of level 0. *)
Theorem X10_char_to_pixels_threshold (text : list codepoint) (font : ImageFont)
    (width height : Z) :
  0 ≤ width →
  0 ≤ height →
  ∃ arr arr_mask,
    char_to_pixels text font width height = Return (arr, arr_mask)
    ∧ nrows arr = Z.to_nat height
    ∧ ncols arr = Z.to_nat width
    ∧ (∀ i j,
         (i < Z.to_nat height)%nat → (j < Z.to_nat width)%nat →
         cells arr !! i ≫= (.!! j)
         = Some (if draw_text font text (Z.to_nat width) (Z.to_nat height) i j =? 0
                 then 255 else 0))
    ∧ (∀ i,
         arr_mask !! i = Some true ↔
         (i < Z.to_nat height)%nat
         ∧ ∃ j, (j < Z.to_nat width)%nat
                ∧ draw_text font text (Z.to_nat width) (Z.to_nat height) i j = 0).
Proof.
  intros Hwidth Hheight. unfold char_to_pixels.
  destruct (Z.ltb_spec width 0) as [?|_]; [lia|].
  destruct (Z.ltb_spec height 0) as [?|_]; [lia|].
  simpl. eexists _, _. split; [reflexivity|]. split; [reflexivity|]. split; [reflexivity|].
  set (W := Z.to_nat width). set (H := Z.to_nat height).
  set (draw := draw_text font text W H).
  assert (∀ i, (i < H)%nat →
               map (map (λ c : Z, if c =? 0 then 255 else 0))
                 (map (λ i, map (draw i) (seq 0 W)) (seq 0 H)) !! i
               = Some (map (λ c : Z, if c =? 0 then 255 else 0) (map (draw i) (seq 0 W))))
    as Hrow.
  { intros i Hi. rewrite !map_map.
    change (map ?f (seq 0 H)) with (f <$> seq 0 H).
    rewrite list_lookup_fmap, lookup_seq_lt by exact Hi. simpl. by rewrite map_map. }
  split.
  - intros i j Hi Hj. rewrite Hrow by exact Hi. simpl. rewrite map_map.
    change (map ?f (seq 0 W)) with (f <$> seq 0 W).
    rewrite list_lookup_fmap, lookup_seq_lt by exact Hj. reflexivity.
  - intros i. unfold any_axis1. simpl.
    change (map ?f ?l !! i) with ((f <$> l) !! i). rewrite list_lookup_fmap.
    split.
    + intros Hset.
      destruct (_ !! i) as [row|] eqn:Hcells in Hset; [|discriminate].
      pose proof (lookup_lt_Some _ _ _ Hcells) as Hi.
      rewrite !length_map, length_seq in Hi. split; [exact Hi|].
      rewrite Hrow in Hcells by exact Hi. injection Hcells as <-.
      injection Hset as Hset. apply existsb_exists in Hset as (c & Hin & Hon).
      apply in_map_iff in Hin as (v & <- & Hin). apply in_map_iff in Hin as (j & <- & Hin).
      apply in_seq in Hin. exists j. split; [lia|].
      destruct (Z.eqb_spec (draw i j) 0) as [Hblack|]; [exact Hblack|discriminate Hon].
    + intros (Hi & j & Hj & Hblack). rewrite Hrow by exact Hi. simpl. f_equal.
      apply existsb_exists. exists 255. split; [|reflexivity].
      apply in_map_iff. exists (draw i j). fold draw in Hblack. rewrite Hblack.
      split; [reflexivity|]. apply in_map_iff. exists j. split; [exact Hblack|].
      apply in_seq. lia.
Qed.

(** X11 (the canvas is never negative): whatever extents the engine
    reports, negative ones included, [get_max_letter_dimensions] gives a
    width and a height that are not negative, a height that is even, a
    width at least that of every character, and a height at least twice
    that of every character. *)
Theorem X11_canvas_holds_every_letter (base_string : list codepoint) (font_inst : ImageFont) :
  0 ≤ (get_max_letter_dimensions base_string font_inst).1
  ∧ 0 ≤ (get_max_letter_dimensions base_string font_inst).2
  ∧ Z.even (get_max_letter_dimensions base_string font_inst).2 = true
  ∧ ∀ char, char ∈ base_string →
      (get_letter_dimensions [char] font_inst).1
      ≤ (get_max_letter_dimensions base_string font_inst).1
      ∧ 2 * (get_letter_dimensions [char] font_inst).2
        ≤ (get_max_letter_dimensions base_string font_inst).2.
Proof.
  unfold get_max_letter_dimensions. rewrite max_letter_loop. simpl.
  pose proof (running_max_bounds
                (map (λ char, (get_letter_dimensions [char] font_inst).1) base_string) 0)
    as (Hwidth & Hwidths & _).
  pose proof (running_max_bounds
                (map (λ char, (get_letter_dimensions [char] font_inst).2) base_string) 0)
    as (Hheight & Hheights & _).
  split; [exact Hwidth|]. split; [lia|]. split.
  - rewrite Z.even_mul. apply orb_true_r.
  - intros char Hchar. split.
    + apply Hwidths. apply list_elem_of_fmap. eauto.
    + assert ((get_letter_dimensions [char] font_inst).2
              ≤ running_max
                  (map (λ char, (get_letter_dimensions [char] font_inst).2) base_string) 0)
        as Hle; [|lia].
      apply Hheights. apply list_elem_of_fmap. eauto.
Qed.

Lemma raster_returns (font_path : str) (all_letters : list codepoint) (font_size : Z) :
  all_letters ≠ [] →
  ∃ prepared, font_to_pixels_raster font_path all_letters (Some font_size) = Return prepared.
Proof.
  intros Hletters. unfold font_to_pixels_raster. simpl.
  pose proof (get_max_letter_dimensions_nonneg all_letters (truetype font_path font_size))
    as [Hwidth Hheight].
  destruct (get_max_letter_dimensions all_letters (truetype font_path font_size))
    as [width height]. simpl in Hwidth, Hheight.
  destruct (raster_loop (truetype font_path font_size) width height all_letters Hwidth Hheight)
    as (rastered & -> & Hlen & Hall). simpl.
  rewrite (determine_final_height_shared (Z.to_nat height)).
  - eexists. reflexivity.
  - destruct rastered; [|discriminate]. destruct all_letters; [congruence|discriminate].
  - apply Forall_fmap. eapply Forall_impl; [exact Hall|]. intros glyph Hglyph. apply Hglyph.
Qed.



End RunMore.

(** A glyph of [block_font] on a canvas of 6 by 3 at size 1: five columns
    of ink on every row. *)
Lemma X10_char_to_pixels_example :
  ∃ arr arr_mask,
    char_to_pixels (PIL := block_font) (lit "1") 1 6 3 = Return (arr, arr_mask)
    ∧ nrows arr = Z.to_nat 3
    ∧ ncols arr = Z.to_nat 6
    ∧ (∀ i j,
         (i < Z.to_nat 3)%nat → (j < Z.to_nat 6)%nat →
         cells arr !! i ≫= (.!! j)
         = Some (if draw_text (FontEngine := block_font) 1 (lit "1")
                      (Z.to_nat 6) (Z.to_nat 3) i j =? 0
                 then 255 else 0))
    ∧ (∀ i,
         arr_mask !! i = Some true ↔
         (i < Z.to_nat 3)%nat
         ∧ ∃ j, (j < Z.to_nat 6)%nat
                ∧ draw_text (FontEngine := block_font) 1 (lit "1")
                    (Z.to_nat 6) (Z.to_nat 3) i j = 0).
Proof.
  apply (X10_char_to_pixels_threshold (PIL := block_font) (lit "1") 1 6 3); lia.
Defined.

(** X12 (when a run returns): with an alphabet that is not empty, a run
    returns exactly when the choice of the size has returned a size: an
    unknown mode and a search that does not end are the only ways it fails
    (the engine being taken to load the font and to draw). *)
Theorem X12_run_returns_with_a_size (PIL : FontEngine) (fuel : nat)
    (font_path output_file_path : str) (all_letters max_width_string : list codepoint)
    (font_size_option : str) (letter_max_px_width str_max_px_width input_font_size : Z) :
  all_letters ≠ [] →
  result (font_to_pixels fuel font_path output_file_path all_letters font_size_option
            letter_max_px_width str_max_px_width max_width_string input_font_size)
  = Return ()
  ↔ ∃ font_size,
      font_to_pixels_font_size fuel font_path all_letters font_size_option
        letter_max_px_width str_max_px_width max_width_string input_font_size
      = Return (Some font_size).
Proof.
  intros Hletters.
  pose proof (font_to_pixels_run fuel font_path output_file_path all_letters font_size_option
                letter_max_px_width str_max_px_width max_width_string input_font_size)
    as Hrun.
  unfold font_to_pixels_prepared in Hrun.
  destruct (font_to_pixels_font_size _ _ _ _ _ _ _ _) as [[font_size|]| |]; simpl in Hrun.
  - destruct (raster_returns font_path all_letters font_size Hletters)
      as [[[[max_width letters] total_mask] actual_height] Hraster].
    rewrite Hraster in Hrun. destruct Hrun as [content ->]. simpl. split; eauto.
  - rewrite Hrun. simpl. split; [discriminate|]. intros [font_size Hsize]. discriminate.
  - rewrite Hrun. simpl. split; [discriminate|]. intros [font_size Hsize]. discriminate.
  - rewrite Hrun. simpl. split; [discriminate|]. intros [font_size Hsize]. discriminate.
Qed.

Lemma X12_run_returns_example :
  result (font_to_pixels (PIL := block_font) 0 (lit "calibri.ttf") (lit "output_file.cpp")
            (lit "01") (lit "font_size") 40 360 (lit "23") 3)
  = Return ().
Proof.
  apply (X12_run_returns_with_a_size block_font 0 (lit "calibri.ttf") (lit "output_file.cpp")
           (lit "01") (lit "23") (lit "font_size") 40 360 3).
  - discriminate.
  - exists 3. reflexivity.
Defined.


